(** * Fuzzy search over Ableton Live Set records (gui.py)

    A shallow embedding of the scoring and ranking code of [gui.py]:
    [get_best_match_score], [perform_fuzzy_search] and the search handler
    [SearchApp.perform_search], followed by the properties proved of them.

    Conventions of the embedding.
    - A Python [str] is a [string] of 8-bit characters; [str.lower] is the
      ASCII case mapping, so the embedding is exact on ASCII text. Text
      past ASCII is carried by its UTF-8 bytes, which [lower] leaves as
      they are.
    - A Python [int] is a [Z].
    - A tuple fetched from SQLite is a [list value]; a REAL or BLOB value
      is carried by the text [str] gives it.
    - An exception is an explicit result: [Raise IndexError] where the
      source indexes a tuple or a list out of range.
    - [fuzz.ratio] belongs to the fuzzywuzzy package and the table
      description [columns_info] is read from the database when the
      module is loaded: both are parameters of the embedding. *)

From Stdlib Require Import ZArith String Ascii Bool List Lia.
From Stdlib Require Import Permutation Sorted DecimalString.
Import ListNotations.

Open Scope string_scope.
Open Scope list_scope.
Open Scope Z_scope.

(** ** The Python operations the module uses *)

Module Py.

Inductive exn : Type :=
| IndexError
| ValueError.

Inductive result (A : Type) : Type :=
| Ok (a : A)
| Raise (e : exn).

Arguments Ok {A} a.
Arguments Raise {A} e.

Definition bind {A B : Type} (c : result A) (k : A -> result B) : result B :=
  match c with
  | Ok a => k a
  | Raise e => Raise e
  end.

(** The values a SQLite cursor hands back: [None] for NULL, [int],
    [str], and [float] and [bytes] by their [str] text. *)
Inductive value : Type :=
| VNone
| VInt (n : Z)
| VStr (s : string)
| VFloat (text : string)
| VBytes (text : string).

Definition is_none (v : value) : bool :=
  match v with
  | VNone => true
  | _ => false
  end.

(** [str(v)] *)
Definition str (v : value) : string :=
  match v with
  | VNone => "None"
  | VInt n => NilEmpty.string_of_int (Z.to_int n)
  | VStr s => s
  | VFloat text => text
  | VBytes text => text
  end.

Definition is_upper (c : ascii) : bool :=
  ((65 <=? nat_of_ascii c) && (nat_of_ascii c <=? 90))%nat.

Definition is_lower (c : ascii) : bool :=
  ((97 <=? nat_of_ascii c) && (nat_of_ascii c <=? 122))%nat.

Definition lower_char (c : ascii) : ascii :=
  if is_upper c then ascii_of_nat (nat_of_ascii c + 32) else c.

Definition upper_char (c : ascii) : ascii :=
  if is_lower c then ascii_of_nat (nat_of_ascii c - 32) else c.

(** [s.lower()] *)
Fixpoint lower (s : string) : string :=
  match s with
  | EmptyString => EmptyString
  | String c s' => String (lower_char c) (lower s')
  end.

(** [not s] for a [str] *)
Definition is_empty (s : string) : bool :=
  match s with
  | EmptyString => true
  | String _ _ => false
  end.

(** [l[i]] for an index counted from the front *)
Definition getitem {A : Type} (l : list A) (i : nat) : result A :=
  match nth_error l i with
  | Some x => Ok x
  | None => Raise IndexError
  end.

(** [x in l] for a list of [str] *)
Definition contains (l : list string) (x : string) : bool :=
  existsb (String.eqb x) l.

(** [l.index(x)] *)
Fixpoint index (l : list string) (x : string) : result nat :=
  match l with
  | [] => Raise ValueError
  | y :: l' =>
      if String.eqb y x then Ok O
      else bind (index l' x) (fun i => Ok (S i))
  end.

Fixpoint enumerate_from {A : Type} (start : nat) (l : list A) : list (nat * A) :=
  match l with
  | [] => []
  | x :: l' => (start, x) :: enumerate_from (S start) l'
  end.

(** [enumerate(l)] *)
Definition enumerate {A : Type} (l : list A) : list (nat * A) :=
  enumerate_from 0 l.

(** One step of a stable descending sort: [x], which stood before every
    element of [l] in the input, goes after the keys above its own and
    before the first key that is not. *)
Fixpoint insert_reverse {A : Type} (key : A -> Z) (x : A) (l : list A) : list A :=
  match l with
  | [] => [x]
  | y :: l' =>
      if key x <? key y then y :: insert_reverse key x l' else x :: y :: l'
  end.

(** [sorted(l, key=key, reverse=True)]: the stable sort by descending
    key. CPython sorts by another algorithm; the stable order of a list
    under a key is unique, so the result is the same list. *)
Definition sorted_reverse {A : Type} (key : A -> Z) (l : list A) : list A :=
  fold_right (insert_reverse key) [] l.

End Py.

Import Py.

Notation "x <- c ;; k" := (Py.bind c (fun x => k))
  (at level 61, c at next level, right associativity).

(** ** The similarity metric of the specification *)

Module fuzz.

(** Modelled from the spec: the number M of matching characters of a
    longest-common-subsequence alignment, which [fuzz.ratio] counts; the
    function is part of fuzzywuzzy and not of the sources. *)
Fixpoint lcs (a b : list ascii) {struct a} : nat :=
  match a with
  | [] => O
  | x :: a' =>
      (fix lcs_row (b : list ascii) : nat :=
         match b with
         | [] => O
         | y :: b' =>
             if Ascii.eqb x y then S (lcs a' b')
             else Nat.max (lcs a' b) (lcs_row b')
         end) b
  end.

(** Modelled from the spec: [fuzz.ratio] is a function of the fuzzywuzzy
    package, which is not part of the sources. The specification gives
    it as 100 x (2 M) / T, with M the number of matching characters of
    a longest-common-subsequence alignment and T the total length of
    both strings. The quotient is the integer one, the score being an
    integer; two empty strings, where T is 0, are identical and get the
    score of identical strings. *)
Definition ratio (s1 s2 : string) : Z :=
  let a := list_ascii_of_string s1 in
  let b := list_ascii_of_string s2 in
  let M := Z.of_nat (lcs a b) in
  let T := Z.of_nat (length a + length b) in
  if T =? 0 then 100 else 100 * (2 * M) / T.

End fuzz.

(** ** gui.py *)

(** One tuple of [PRAGMA table_info(ableton_live_sets)]:
    (cid, name, type, notnull, dflt_value, pk). The module reads only
    component 1, the column's name. *)
Record column_info : Type := {
  ci_cid : Z;
  ci_name : string;
  ci_type : string;
  ci_notnull : Z;
  ci_dflt_value : value;
  ci_pk : Z
}.

(** One tuple of [SELECT * FROM ableton_live_sets]. *)
Definition Row : Type := list value.

(** The list of column names written out in [perform_fuzzy_search] and,
    three times, in [SearchApp]. *)
Definition excluded_columns : list string :=
  ["uuid"; "identifier"; "xml_root"; "path"; "file_hash"; "last_scan_timestamp"].

(** The part of PyQt5's [QTableWidget] the handler touches: the two
    counts and the text of the cells that hold an item. *)
Record QTableWidget : Type := {
  rowCount : nat;
  columnCount : nat;
  items : list (nat * nat * string)
}.

Definition same_cell (r c : nat) (it : nat * nat * string) : bool :=
  (Nat.eqb (fst (fst it)) r && Nat.eqb (snd (fst it)) c)%bool.

(** [table.setRowCount(n)]: rows from [n] on are removed with their items. *)
Definition setRowCount (table : QTableWidget) (n : nat) : QTableWidget :=
  {| rowCount := n;
     columnCount := columnCount table;
     items := filter (fun it => Nat.ltb (fst (fst it)) n) (items table) |}.

(** [table.setItem(r, c, QTableWidgetItem(text))]: the item replaces the
    one of the cell; outside the table the call changes nothing. *)
Definition setItem (table : QTableWidget) (r c : nat) (text : string) : QTableWidget :=
  if (Nat.ltb r (rowCount table) && Nat.ltb c (columnCount table))%bool then
    {| rowCount := rowCount table;
       columnCount := columnCount table;
       items := (r, c, text) :: filter (fun it => negb (same_cell r c it)) (items table) |}
  else table.

Record SearchApp : Type := {
  headers : list string;
  result_table : QTableWidget
}.

Section Gui.

(** [columns_info], fetched once when the module is loaded. *)
Variable columns_info : list column_info.

(** [fuzz.ratio] *)
Variable fuzz_ratio : string -> string -> Z.

(** Line 62: [fuzz.ratio(str(row[index]).lower(), query.lower())] *)
Definition field_score (v : value) (query : string) : Z :=
  fuzz_ratio (lower (str v)) (lower query).

(** The [for] loop of [get_best_match_score] over what is left of
    [enumerate(columns_info)], [best_score] being the loop's variable.
    [row[index]] is read only past the test of the column's name. *)
Fixpoint get_best_match_score_loop (row : Row) (query : string)
    (exclude_columns : list string) (todo : list (nat * column_info))
    (best_score : Z) : result Z :=
  match todo with
  | [] => Ok best_score
  | (index, info) :: todo' =>
      let column_name := ci_name info in
      if negb (contains exclude_columns column_name) then
        v <- getitem row index ;;
        if negb (is_none v) then
          let score := field_score v query in
          get_best_match_score_loop row query exclude_columns todo'
            (Z.max best_score score)
        else
          get_best_match_score_loop row query exclude_columns todo' best_score
      else
        get_best_match_score_loop row query exclude_columns todo' best_score
  end.

Definition get_best_match_score (row : Row) (query : string)
    (exclude_columns : list string) : result Z :=
  get_best_match_score_loop row query exclude_columns (enumerate columns_info) 0.

(** Line 75: the list comprehension over [all_rows]. *)
Fixpoint match_scores (query : string) (exclude_columns : list string)
    (all_rows : list Row) : result (list (Row * Z)) :=
  match all_rows with
  | [] => Ok []
  | row :: rest =>
      score <- get_best_match_score row query exclude_columns ;;
      scored <- match_scores query exclude_columns rest ;;
      Ok ((row, score) :: scored)
  end.

(** [perform_fuzzy_search(query)]; [all_rows] is what the cursor
    fetches from the table. The calls to [sqlite3] of lines 69 to 73 and
    81, and the errors they can raise, stay outside: the function is the
    scoring and ranking of the fetched records, lines 75 to 79. *)
Definition perform_fuzzy_search (query : string) (all_rows : list Row)
    : result (list (Row * Z)) :=
  let exclude_columns := excluded_columns in
  scored <- match_scores query exclude_columns all_rows ;;
  let sorted_matches := sorted_reverse snd scored in
  let top_matches := firstn 10 sorted_matches in
  Ok top_matches.

(** [SearchApp.__init__]: the headers and the empty result table. The
    column count is [len(columns_info) - 6]; for a schema of fewer than
    six columns, where the source hands [setColumnCount] a negative
    number, the count is 0 here. *)
Definition SearchApp_init : SearchApp :=
  {| headers :=
       map ci_name
         (filter (fun info => negb (contains excluded_columns (ci_name info)))
            columns_info);
     result_table :=
       {| rowCount := 0;
          columnCount := length columns_info - length excluded_columns;
          items := [] |} |}.

(** Lines 128 to 137: the cells of one match. *)
Fixpoint render_cells (hdrs : list string) (row : nat)
    (cells : list (nat * value)) (table : QTableWidget) : result QTableWidget :=
  match cells with
  | [] => Ok table
  | (col_index, v) :: cells' =>
      info <- getitem columns_info col_index ;;
      let column_name := ci_name info in
      if negb (contains excluded_columns column_name) then
        col <- index hdrs column_name ;;
        render_cells hdrs row cells' (setItem table row col (str v))
      else
        render_cells hdrs row cells' table
  end.

(** Lines 127 to 137: one table row for each match. *)
Fixpoint render_matches (hdrs : list string)
    (todo : list (nat * (Row * Z))) (table : QTableWidget) : result QTableWidget :=
  match todo with
  | [] => Ok table
  | (row, (match_row, _)) :: todo' =>
      table' <- render_cells hdrs row (enumerate match_row) table ;;
      render_matches hdrs todo' table'
  end.

(** [SearchApp.perform_search]; [query] is the text of the line edit.
    The result is the window after the handler, or the exception that
    ended it; what the handler had set in the widget before an exception
    is not part of the result. *)
Definition perform_search (self : SearchApp) (query : string)
    (all_rows : list Row) : result SearchApp :=
  if is_empty query then
    Ok {| headers := headers self;
          result_table := setRowCount (result_table self) 0 |}
  else
    matches <- perform_fuzzy_search query all_rows ;;
    let table := setRowCount (result_table self) (length matches) in
    table' <- render_matches (headers self) (enumerate matches) table ;;
    Ok {| headers := headers self; result_table := table' |}.

End Gui.

Arguments field_score fuzz_ratio v query : assert.

(** ** Notions the properties are stated with *)

(** A record has one value for each column of the schema. *)
Definition aligned (columns_info : list column_info) (row : Row) : Prop :=
  length row = length columns_info.

(** The positions that count for the score of [row]: the column's name
    is not excluded and the value there is not null. *)
Definition scored_position (columns_info : list column_info) (row : Row)
    (exclude_columns : list string) (i : nat) : bool :=
  match nth_error columns_info i, nth_error row i with
  | Some info, Some v =>
      (negb (contains exclude_columns (ci_name info)) && negb (is_none v))%bool
  | _, _ => false
  end.

Definition scored_positions (columns_info : list column_info) (row : Row)
    (exclude_columns : list string) : list nat :=
  filter (scored_position columns_info row exclude_columns)
    (seq 0 (length columns_info)).

(** The per-field scores of [row], position by position. *)
Definition field_scores (columns_info : list column_info)
    (fuzz_ratio : string -> string -> Z) (row : Row) (query : string)
    (exclude_columns : list string) : list Z :=
  map (fun i => field_score fuzz_ratio (nth i row VNone) query)
    (scored_positions columns_info row exclude_columns).

(** The greatest score of a list, 0 for the empty list. *)
Definition max_score (scores : list Z) : Z :=
  fold_right Z.max 0 scores.

(** What one step of the scoring loop sees of a pair of [enumerate]. *)
Definition counts (row : Row) (exclude_columns : list string)
    (p : nat * column_info) : bool :=
  (negb (contains exclude_columns (ci_name (snd p)))
   && negb (is_none (nth (fst p) row VNone)))%bool.

Definition score_at (fuzz_ratio : string -> string -> Z) (row : Row)
    (query : string) (p : nat * column_info) : Z :=
  field_score fuzz_ratio (nth (fst p) row VNone) query.

(** [row] with the value at position [i] replaced. *)
Fixpoint set_field (row : Row) (i : nat) (v : value) : Row :=
  match row, i with
  | [], _ => []
  | _ :: row', O => v :: row'
  | x :: row', S i' => x :: set_field row' i' v
  end.

(** Two records that differ at most in excluded columns. *)
Definition agree_on_visible (columns_info : list column_info)
    (exclude_columns : list string) (r1 r2 : Row) : Prop :=
  length r1 = length r2 /\
  forall i info,
    nth_error columns_info i = Some info ->
    contains exclude_columns (ci_name info) = false ->
    nth_error r1 i = nth_error r2 i.

(** Subsequences, for the alignment the metric counts. *)
Inductive subseq {A : Type} : list A -> list A -> Prop :=
| subseq_nil : forall l, subseq [] l
| subseq_skip : forall w x l, subseq w l -> subseq w (x :: l)
| subseq_take : forall w x l, subseq w l -> subseq (x :: w) (x :: l).

Definition common_subseq {A : Type} (w a b : list A) : Prop :=
  subseq w a /\ subseq w b.

(** [M] is the length of a longest common subsequence of [a] and [b]. *)
Definition longest_common {A : Type} (a b : list A) (M : nat) : Prop :=
  (exists w, common_subseq w a b /\ length w = M) /\
  (forall w, common_subseq w a b -> (length w <= M)%nat).

(** Two characters that are one letter, in whichever case. *)
Inductive same_letter : ascii -> ascii -> Prop :=
| same_letter_refl : forall c, same_letter c c
| same_letter_upper : forall c, is_lower c = true -> same_letter c (upper_char c)
| same_letter_lower : forall c, is_upper c = true -> same_letter c (lower_char c).

(** Two strings equal up to the case of their letters. *)
Inductive eq_upto_case : string -> string -> Prop :=
| eq_upto_case_nil : eq_upto_case EmptyString EmptyString
| eq_upto_case_cons : forall c1 c2 s1 s2,
    same_letter c1 c2 -> eq_upto_case s1 s2 ->
    eq_upto_case (String c1 s1) (String c2 s2).

(** Descending order of the scores of a ranking. *)
Definition descending (l : list (Row * Z)) : Prop :=
  StronglySorted (fun x y => snd y <= snd x) l.

Definition has_score (s : Z) (p : Row * Z) : bool :=
  snd p =? s.

(** ** A small table, for the instances *)

Definition column (cid : Z) (name type : string) : column_info :=
  {| ci_cid := cid; ci_name := name; ci_type := type;
     ci_notnull := 0; ci_dflt_value := VNone; ci_pk := 0 |}.

Definition demo_columns : list column_info :=
  [column 0 "uuid" "TEXT"; column 1 "name" "TEXT";
   column 2 "creator" "TEXT"; column 3 "tempo" "REAL"].

Definition midnight_drive : Row :=
  [VStr "a1"; VStr "Midnight Drive"; VNone; VFloat "120.0"].

Definition sunrise : Row :=
  [VStr "b2"; VStr "Sunrise"; VStr "Ana"; VFloat "90.0"].

(** A second take of one project: only the excluded [uuid] differs. *)
Definition take (n : Z) : Row :=
  [VInt n; VStr "Midnight Drive"; VNone; VFloat "120.0"].

Definition many_takes : list Row :=
  map take [1; 2; 3; 4; 5; 6; 7; 8; 9; 10; 11] ++ [sunrise].

(** ** The database path, and further notions *)

(** [s.replace(old, new)] for a non-empty [old]: the occurrences are
    taken from the left and do not overlap. [skip] counts the characters
    of a replaced occurrence that are still to pass. *)
Fixpoint replace_from (old new : string) (skip : nat) (s : string) : string :=
  match s with
  | EmptyString => EmptyString
  | String c s' =>
      match skip with
      | S skip' => replace_from old new skip' s'
      | O =>
          if String.prefix old s then
            (new ++ replace_from old new (String.length old - 1) s')%string
          else String c (replace_from old new 0 s')
      end
  end.

Definition replace (old new s : string) : string :=
  replace_from old new 0 s.

(** Line 48: the text handed to [Path], [configured] being
    [config["database_path"]["path"]] and [user_home_dir] the expansion
    of [~]. *)
Definition database_path (configured user_home_dir : string) : string :=
  replace "{USER_HOME}" user_home_dir configured.

(** [old] stands somewhere in [s]. *)
Definition occurs (old s : string) : Prop :=
  exists a b, s = (a ++ old ++ b)%string.

(** No character of [s] is [c]. *)
Fixpoint free_of (c : ascii) (s : string) : bool :=
  match s with
  | EmptyString => true
  | String c' s' => (negb (Ascii.eqb c' c) && free_of c s')%bool
  end.

(** A record too short for a column that is not excluded. *)
Definition unreadable (columns_info : list column_info)
    (exclude_columns : list string) (row : Row) : Prop :=
  exists i info,
    nth_error columns_info i = Some info /\
    contains exclude_columns (ci_name info) = false /\
    (length row <= i)%nat.

(** The text of the item of a cell, as [table.item(r, c).text()] reads
    it; [None] for a cell without item. *)
Definition item_text (table : QTableWidget) (r c : nat) : option string :=
  option_map snd (find (same_cell r c) (items table)).

(** The number of columns of the schema whose name is excluded. *)
Definition excluded_present (columns_info : list column_info) : nat :=
  length (filter (fun info => contains excluded_columns (ci_name info)) columns_info).

(** The letter dotless i, U+0131, by its two UTF-8 bytes. *)
Definition dotless_i : string :=
  String (ascii_of_nat 196) (String (ascii_of_nat 177) EmptyString).

(** [s.upper()] on ASCII text and on the dotless i, whose upper-case form
    in Unicode is the capital I; other bytes past ASCII are left as they
    are. *)
Fixpoint upper (s : string) : string :=
  match s with
  | EmptyString => EmptyString
  | String c s' =>
      match s' with
      | String d s'' =>
          if (Nat.eqb (nat_of_ascii c) 196 && Nat.eqb (nat_of_ascii d) 177)%bool
          then String "I"%char (upper s'')
          else String (upper_char c) (upper s')
      | EmptyString => String (upper_char c) EmptyString
      end
  end.

(** A record of [demo_columns] whose name is the letter i. *)
Definition letter_i_row : Row :=
  [VStr "d4"; VStr "i"; VNone; VNone].

(** ** A table with the six excluded columns, for the instances *)

Definition full_columns : list column_info :=
  [column 0 "uuid" "TEXT"; column 1 "identifier" "TEXT";
   column 2 "xml_root" "BLOB"; column 3 "path" "TEXT";
   column 4 "file_hash" "TEXT"; column 5 "last_scan_timestamp" "REAL";
   column 6 "name" "TEXT"; column 7 "creator" "TEXT"; column 8 "tempo" "REAL"].

Definition full_rows : list Row :=
  [[VStr "a1"; VStr "id1"; VBytes "b'<x/>'"; VStr "/sets/drive.als"; VStr "f00";
    VFloat "1700000000.0"; VStr "Midnight Drive"; VNone; VFloat "120.0"];
   [VStr "b2"; VStr "id2"; VNone; VStr "/sets/sunrise.als"; VStr "f01";
    VFloat "1700000001.0"; VStr "Sunrise"; VStr "Ana"; VFloat "90.0"]].

(** A record with one value more than [demo_columns] has columns. *)
Definition long_row : Row :=
  [VStr "c3"; VStr "Dusk"; VNone; VFloat "100.0"; VStr "stray"].

(** ** Facts about the Python operations *)

Section PyFacts.

Context {A : Type}.

Lemma getitem_Ok (l : list A) (i : nat) :
  (i < length l)%nat -> exists x, getitem l i = Ok x /\ nth_error l i = Some x.
Proof.
  intros Hi. unfold getitem.
  destruct (nth_error l i) as [x|] eqn:E.
  - now exists x.
  - apply nth_error_None in E. lia.
Qed.

Lemma in_enumerate_from (l : list A) :
  forall k i x, In (i, x) (enumerate_from k l) ->
    (k <= i)%nat /\ nth_error l (i - k) = Some x.
Proof.
  induction l as [|y l IH]; intros k i x Hin; simpl in Hin.
  - contradiction.
  - destruct Hin as [Heq | Hin].
    + inversion Heq; subst. rewrite Nat.sub_diag. split; [lia | reflexivity].
    + apply IH in Hin. destruct Hin as [Hle Hnth]. split; [lia |].
      replace (i - k)%nat with (S (i - S k)) by lia. exact Hnth.
Qed.

Lemma in_enumerate (l : list A) (i : nat) (x : A) :
  In (i, x) (enumerate l) -> nth_error l i = Some x.
Proof.
  intros Hin. apply in_enumerate_from in Hin.
  rewrite Nat.sub_0_r in Hin. tauto.
Qed.

Lemma enumerate_from_nth_error (l : list A) :
  forall k n, nth_error (enumerate_from k l) n =
              option_map (fun x => ((k + n)%nat, x)) (nth_error l n).
Proof.
  induction l as [|y l IH]; intros k [|n]; simpl; try reflexivity.
  - now rewrite Nat.add_0_r.
  - rewrite IH. now rewrite Nat.add_succ_r.
Qed.

(** A filter and a map over [enumerate] read as ones over positions. *)
Lemma enumerate_from_positions {B : Type} (P : nat * A -> bool) (F : nat * A -> B)
    (p : nat -> bool) (f : nat -> B) (l : list A) :
  forall k,
    (forall j x, nth_error l j = Some x ->
                 P ((k + j)%nat, x) = p (k + j)%nat /\
                 F ((k + j)%nat, x) = f (k + j)%nat) ->
    map F (filter P (enumerate_from k l)) = map f (filter p (seq k (length l))).
Proof.
  induction l as [|y l IH]; intros k H; simpl; [reflexivity |].
  destruct (H O y eq_refl) as [HP HF]. rewrite Nat.add_0_r in HP, HF.
  assert (Hrest : map F (filter P (enumerate_from (S k) l))
                  = map f (filter p (seq (S k) (length l)))).
  { apply IH. intros j x Hj. specialize (H (S j) x Hj).
    now rewrite Nat.add_succ_r in H. }
  rewrite HP. destruct (p k); simpl; congruence.
Qed.

End PyFacts.

(** ** The running maximum *)

Lemma running_max_ge_start (l : list Z) :
  forall b, b <= fold_left Z.max l b.
Proof.
  induction l as [|x l IH]; intros b; simpl; [lia |].
  specialize (IH (Z.max b x)). lia.
Qed.

Lemma running_max_ge_all (l : list Z) :
  forall b, Forall (fun s => s <= fold_left Z.max l b) l.
Proof.
  induction l as [|x l IH]; intros b; simpl; constructor.
  - pose proof (running_max_ge_start l (Z.max b x)). lia.
  - apply IH.
Qed.

Lemma running_max_attained (l : list Z) :
  forall b, fold_left Z.max l b = b \/ In (fold_left Z.max l b) l.
Proof.
  induction l as [|x l IH]; intros b; simpl; [now left |].
  destruct (IH (Z.max b x)) as [E | Hin]; [| now right; right].
  rewrite E. destruct (Z.max_spec b x) as [[_ Hm] | [_ Hm]]; rewrite Hm; auto.
Qed.

Lemma running_max_shift (l : list Z) :
  forall b x, fold_right Z.max (Z.max b x) l = Z.max x (fold_right Z.max b l).
Proof.
  induction l as [|y l IH]; intros b x; simpl; [lia |].
  rewrite IH. lia.
Qed.

Lemma running_max_is_max_score (l : list Z) :
  fold_left Z.max l 0 = max_score l.
Proof.
  unfold max_score. generalize 0.
  induction l as [|x l IH]; intros b; simpl; [reflexivity |].
  rewrite IH. apply running_max_shift.
Qed.

(** ** The scoring loop *)

Section ScoreFacts.

Variable columns_info : list column_info.
Variable fuzz_ratio : string -> string -> Z.

Local Abbreviation loop := (get_best_match_score_loop fuzz_ratio).
Local Abbreviation score := (get_best_match_score columns_info fuzz_ratio).

(** The loop over pairs whose index is in the record folds the running
    maximum over the scores of the pairs that count. *)
Lemma loop_running_max row query exclude_columns :
  forall todo best_score,
    (forall p, In p todo -> (fst p < length row)%nat) ->
    loop row query exclude_columns todo best_score =
    Ok (fold_left Z.max
          (map (score_at fuzz_ratio row query)
             (filter (counts row exclude_columns) todo))
          best_score).
Proof.
  induction todo as [|[index info] todo IH]; intros best_score Hin; simpl.
  - reflexivity.
  - assert (Hi : (index < length row)%nat) by (apply (Hin (index, info)); now left).
    assert (Hrest : forall p, In p todo -> (fst p < length row)%nat)
      by (intros p Hp; apply Hin; now right).
    unfold counts at 1. simpl.
    destruct (contains exclude_columns (ci_name info)); simpl.
    + now apply IH.
    + destruct (getitem_Ok row index Hi) as [v [Hget Hnth]].
      assert (Hn : nth index row VNone = v) by now apply nth_error_nth.
      rewrite Hget. simpl. rewrite Hn.
      destruct (is_none v) eqn:Hv; simpl.
      * now apply IH.
      * rewrite IH by assumption. simpl.
        change (score_at fuzz_ratio row query (index, info))
          with (field_score fuzz_ratio (nth index row VNone) query).
        now rewrite Hn.
Qed.

(** The pairs of [enumerate(columns_info)] that count are the scored
    positions. *)
Lemma enumerated_scores row query exclude_columns :
  aligned columns_info row ->
  map (score_at fuzz_ratio row query)
    (filter (counts row exclude_columns) (enumerate columns_info))
  = field_scores columns_info fuzz_ratio row query exclude_columns.
Proof.
  intros Hal. unfold field_scores, scored_positions, enumerate.
  apply enumerate_from_positions. intros j info Hj. simpl.
  split; [| reflexivity].
  unfold counts, scored_position. simpl. rewrite Hj.
  assert (Hlt : (j < length row)%nat).
  { unfold aligned in Hal. rewrite Hal. apply nth_error_Some. congruence. }
  destruct (nth_error row j) as [v|] eqn:Hv.
  - now rewrite (nth_error_nth row j VNone Hv).
  - apply nth_error_None in Hv. lia.
Qed.

Lemma score_running_max row query exclude_columns :
  aligned columns_info row ->
  score row query exclude_columns =
  Ok (fold_left Z.max
        (field_scores columns_info fuzz_ratio row query exclude_columns) 0).
Proof.
  intros Hal. unfold get_best_match_score.
  rewrite loop_running_max.
  - now rewrite enumerated_scores.
  - intros [i info] Hin. simpl. apply in_enumerate in Hin.
    unfold aligned in Hal. rewrite Hal. apply nth_error_Some. congruence.
Qed.

(** The loop reads a record only at the columns that are not excluded. *)
Lemma loop_reads_visible row1 row2 query exclude_columns :
  forall todo best_score,
    (forall index info, In (index, info) todo ->
       contains exclude_columns (ci_name info) = false ->
       nth_error row1 index = nth_error row2 index) ->
    loop row1 query exclude_columns todo best_score =
    loop row2 query exclude_columns todo best_score.
Proof.
  induction todo as [|[index info] todo IH]; intros best_score Hsame; simpl.
  - reflexivity.
  - assert (Hrest : forall i c, In (i, c) todo ->
              contains exclude_columns (ci_name c) = false ->
              nth_error row1 i = nth_error row2 i)
      by (intros i c Hin; apply Hsame; now right).
    destruct (contains exclude_columns (ci_name info)) eqn:Hex; simpl.
    + now apply IH.
    + unfold getitem. rewrite (Hsame index info (or_introl eq_refl) Hex).
      destruct (nth_error row2 index) as [v|]; simpl; [| reflexivity].
      destruct (is_none v); simpl; now apply IH.
Qed.

(** The loop reads the query only through [query.lower()]. *)
Lemma loop_reads_lower row q1 q2 exclude_columns :
  lower q1 = lower q2 ->
  forall todo best_score,
    loop row q1 exclude_columns todo best_score =
    loop row q2 exclude_columns todo best_score.
Proof.
  intros Hq. induction todo as [|[index info] todo IH]; intros best_score; simpl.
  - reflexivity.
  - destruct (negb (contains exclude_columns (ci_name info))); [| apply IH].
    destruct (getitem row index) as [v|e]; simpl; [| reflexivity].
    destruct (negb (is_none v)); [| apply IH].
    unfold field_score. rewrite Hq. apply IH.
Qed.

End ScoreFacts.

(** ** The stable descending sort *)

Section SortFacts.

Context {A : Type}.
Variable key : A -> Z.

Local Abbreviation ge_key := (fun x y : A => key y <= key x).
Local Abbreviation with_key := (fun (s : Z) (x : A) => key x =? s).

Lemma insert_reverse_perm (x : A) (l : list A) :
  Permutation (insert_reverse key x l) (x :: l).
Proof.
  induction l as [|y l IH]; simpl.
  - apply Permutation_refl.
  - destruct (key x <? key y).
    + eapply perm_trans; [apply perm_skip, IH | apply perm_swap].
    + apply Permutation_refl.
Qed.

Lemma sorted_reverse_perm (l : list A) :
  Permutation (sorted_reverse key l) l.
Proof.
  induction l as [|x l IH]; simpl.
  - constructor.
  - eapply perm_trans; [apply insert_reverse_perm | now apply perm_skip].
Qed.

Lemma sorted_reverse_length (l : list A) :
  length (sorted_reverse key l) = length l.
Proof. apply Permutation_length, sorted_reverse_perm. Qed.

Lemma insert_reverse_sorted (x : A) (l : list A) :
  StronglySorted ge_key l -> StronglySorted ge_key (insert_reverse key x l).
Proof.
  induction 1 as [|y l Hl IH Hy]; simpl.
  - repeat constructor.
  - destruct (key x <? key y) eqn:Hlt.
    + apply Z.ltb_lt in Hlt. constructor; [exact IH |].
      apply (Permutation_Forall (Permutation_sym (insert_reverse_perm x l))).
      constructor; [lia | exact Hy].
    + apply Z.ltb_ge in Hlt. constructor.
      * now constructor.
      * constructor; [exact Hlt |].
        eapply Forall_impl; [| exact Hy]. simpl. intros z Hz. lia.
Qed.

Lemma sorted_reverse_sorted (l : list A) :
  StronglySorted ge_key (sorted_reverse key l).
Proof.
  induction l as [|x l IH]; simpl.
  - constructor.
  - now apply insert_reverse_sorted.
Qed.

(** Among the elements of one key, the inserted one comes first. *)
Lemma insert_reverse_filter (s : Z) (x : A) (l : list A) :
  filter (with_key s) (insert_reverse key x l) = filter (with_key s) (x :: l).
Proof.
  induction l as [|y l IH]; [reflexivity |].
  simpl. destruct (key x <? key y) eqn:Hlt; [| reflexivity].
  apply Z.ltb_lt in Hlt. simpl. rewrite IH. simpl.
  destruct (key x =? s) eqn:Hx; [| reflexivity].
  apply Z.eqb_eq in Hx.
  assert (Hy : (key y =? s) = false) by (apply Z.eqb_neq; lia).
  now rewrite Hy.
Qed.

(** Stability: the elements of one key keep the order of the input. *)
Lemma sorted_reverse_stable (s : Z) (l : list A) :
  filter (with_key s) (sorted_reverse key l) = filter (with_key s) l.
Proof.
  induction l as [|x l IH]; [reflexivity |].
  simpl. rewrite insert_reverse_filter. simpl. now rewrite IH.
Qed.

End SortFacts.

Section ListFacts.

Context {A : Type}.

Lemma in_firstn (n : nat) (l : list A) (x : A) :
  In x (firstn n l) -> In x l.
Proof.
  intros H. rewrite <- (firstn_skipn n l). apply in_or_app. now left.
Qed.

Lemma StronglySorted_firstn (R : A -> A -> Prop) (n : nat) (l : list A) :
  StronglySorted R l -> StronglySorted R (firstn n l).
Proof.
  intros Hs. revert n.
  induction Hs as [|x l Hl IH Hx]; intros [|n]; simpl; try constructor.
  - apply IH.
  - rewrite Forall_forall in *. intros y Hy.
    apply Hx. eapply in_firstn. exact Hy.
Qed.


Lemma filter_firstn_prefix (p : A -> bool) (n : nat) (l : list A) :
  filter p l = filter p (firstn n l) ++ filter p (skipn n l).
Proof.
  rewrite <- filter_app. now rewrite firstn_skipn.
Qed.



End ListFacts.

(** ** Letter case *)

Lemma is_upper_range (c : ascii) :
  is_upper c = true <-> (65 <= nat_of_ascii c <= 90)%nat.
Proof.
  unfold is_upper. rewrite andb_true_iff, !Nat.leb_le. tauto.
Qed.

Lemma is_lower_range (c : ascii) :
  is_lower c = true <-> (97 <= nat_of_ascii c <= 122)%nat.
Proof.
  unfold is_lower. rewrite andb_true_iff, !Nat.leb_le. tauto.
Qed.

Lemma is_upper_false (c : ascii) :
  (90 < nat_of_ascii c)%nat -> is_upper c = false.
Proof.
  intros H. destruct (is_upper c) eqn:E; [| reflexivity].
  apply is_upper_range in E. lia.
Qed.

Lemma lower_char_upper_char (c : ascii) :
  is_lower c = true -> lower_char (upper_char c) = lower_char c.
Proof.
  intros Hl. pose proof (proj1 (is_lower_range c) Hl) as Hr.
  unfold upper_char. rewrite Hl.
  assert (Hcode : nat_of_ascii (ascii_of_nat (nat_of_ascii c - 32))
                  = (nat_of_ascii c - 32)%nat)
    by (apply nat_ascii_embedding; lia).
  unfold lower_char at 1.
  replace (is_upper (ascii_of_nat (nat_of_ascii c - 32))) with true
    by (symmetry; apply is_upper_range; lia).
  rewrite Hcode.
  replace (nat_of_ascii c - 32 + 32)%nat with (nat_of_ascii c) by lia.
  rewrite ascii_nat_embedding.
  unfold lower_char. rewrite is_upper_false by lia. reflexivity.
Qed.

Lemma lower_char_idempotent (c : ascii) :
  lower_char (lower_char c) = lower_char c.
Proof.
  destruct (is_upper c) eqn:Hu.
  - assert (Hc : lower_char c = ascii_of_nat (nat_of_ascii c + 32))
      by (unfold lower_char; now rewrite Hu).
    apply is_upper_range in Hu. rewrite Hc.
    unfold lower_char. rewrite is_upper_false; [reflexivity |].
    rewrite nat_ascii_embedding; lia.
  - assert (Hc : lower_char c = c) by (unfold lower_char; now rewrite Hu).
    now rewrite !Hc.
Qed.

Lemma same_letter_lower_char (c1 c2 : ascii) :
  same_letter c1 c2 -> lower_char c1 = lower_char c2.
Proof.
  destruct 1 as [c | c Hl | c Hu].
  - reflexivity.
  - symmetry. now apply lower_char_upper_char.
  - symmetry. apply lower_char_idempotent.
Qed.

Lemma eq_upto_case_lower (q1 q2 : string) :
  eq_upto_case q1 q2 -> lower q1 = lower q2.
Proof.
  induction 1 as [| c1 c2 s1 s2 Hc _ IH]; simpl.
  - reflexivity.
  - f_equal; [now apply same_letter_lower_char | exact IH].
Qed.

Lemma lower_length (s : string) :
  String.length (lower s) = String.length s.
Proof.
  induction s as [|c s IH]; simpl; congruence.
Qed.

Lemma list_ascii_length (s : string) :
  length (list_ascii_of_string s) = String.length s.
Proof.
  induction s as [|c s IH]; simpl; congruence.
Qed.

(** ** The metric *)

Section SubseqFacts.

Context {A : Type}.

Lemma subseq_nil_inv (w : list A) : subseq w [] -> w = [].
Proof. now inversion 1. Qed.

Lemma subseq_drop_head (c : A) (w l : list A) :
  subseq (c :: w) l -> subseq w l.
Proof.
  induction l as [|x l IH]; intros H; inversion H; subst.
  - apply subseq_skip. now apply IH.
  - now apply subseq_skip.
Qed.

Lemma subseq_tails (c x : A) (w l : list A) :
  subseq (c :: w) (x :: l) -> subseq w l.
Proof.
  intros H. inversion H; subst.
  - eapply subseq_drop_head. eassumption.
  - assumption.
Qed.

Lemma subseq_length (w l : list A) :
  subseq w l -> (length w <= length l)%nat.
Proof.
  induction 1; simpl; lia.
Qed.

End SubseqFacts.

Module fuzz_facts.

Import fuzz.

Lemma lcs_nil_r (a : list ascii) : lcs a [] = O.
Proof. now destruct a. Qed.

Lemma lcs_cons_cons (x y : ascii) (a b : list ascii) :
  lcs (x :: a) (y :: b) =
  if Ascii.eqb x y then S (lcs a b)
  else Nat.max (lcs a (y :: b)) (lcs (x :: a) b).
Proof. reflexivity. Qed.

(** The count is that of a common subsequence. *)
Lemma lcs_common (a : list ascii) :
  forall b, exists w, common_subseq w a b /\ length w = lcs a b.
Proof.
  induction a as [|x a IHa]; intros b.
  - exists []. repeat split; constructor.
  - induction b as [|y b IHb].
    + exists []. repeat split; constructor.
    + rewrite lcs_cons_cons. destruct (Ascii.eqb x y) eqn:E.
      * apply Ascii.eqb_eq in E. subst y.
        destruct (IHa b) as [w [[Hwa Hwb] Hlen]].
        exists (x :: w). repeat split; try now constructor.
        simpl. now rewrite Hlen.
      * destruct (Nat.max_spec (lcs a (y :: b)) (lcs (x :: a) b))
          as [[_ Hm] | [_ Hm]]; rewrite Hm.
        -- destruct IHb as [w [[Hwa Hwb] Hlen]].
           exists w. repeat split; try assumption. now constructor.
        -- destruct (IHa (y :: b)) as [w [[Hwa Hwb] Hlen]].
           exists w. repeat split; try assumption. now constructor.
Qed.

(** No common subsequence is longer. *)
Lemma lcs_longest (a : list ascii) :
  forall b w, common_subseq w a b -> (length w <= lcs a b)%nat.
Proof.
  induction a as [|x a IHa]; intros b w [Ha Hb].
  - apply subseq_nil_inv in Ha. subst w. simpl. lia.
  - revert w Ha Hb. induction b as [|y b IHb]; intros w Ha Hb.
    + apply subseq_nil_inv in Hb. subst w. simpl. lia.
    + rewrite lcs_cons_cons. destruct (Ascii.eqb x y) eqn:E.
      * destruct w as [|c w]; [simpl; lia |].
        apply subseq_tails in Ha. apply subseq_tails in Hb.
        specialize (IHa b w (conj Ha Hb)). simpl. lia.
      * inversion Ha; subst.
        -- simpl. lia.
        -- specialize (IHa (y :: b) w (conj H1 Hb)). lia.
        -- inversion Hb; subst.
           ++ specialize (IHb (x :: w0) Ha H2). lia.
           ++ rewrite Ascii.eqb_refl in E. discriminate.
Qed.

Lemma lcs_longest_common (a b : list ascii) :
  longest_common a b (lcs a b).
Proof.
  split; [apply lcs_common | apply lcs_longest].
Qed.

Lemma lcs_le_lengths (a b : list ascii) :
  (2 * lcs a b <= length a + length b)%nat.
Proof.
  destruct (lcs_common a b) as [w [[Ha Hb] Hlen]].
  apply subseq_length in Ha. apply subseq_length in Hb. lia.
Qed.


(** The metric away from two empty strings. *)
Lemma ratio_formula (s1 s2 : string) :
  (0 < String.length s1 + String.length s2)%nat ->
  ratio s1 s2 =
  100 * (2 * Z.of_nat (lcs (list_ascii_of_string s1) (list_ascii_of_string s2)))
  / Z.of_nat (String.length s1 + String.length s2).
Proof.
  intros HT. unfold ratio. rewrite !list_ascii_length.
  destruct (Z.eqb_spec (Z.of_nat (String.length s1 + String.length s2)) 0); [lia |].
  reflexivity.
Qed.

Lemma ratio_range (s1 s2 : string) : 0 <= ratio s1 s2 <= 100.
Proof.
  unfold ratio.
  pose proof (lcs_le_lengths (list_ascii_of_string s1) (list_ascii_of_string s2)) as H.
  set (M := lcs _ _) in *. set (T := (length _ + length _)%nat) in *.
  destruct (Z.eqb_spec (Z.of_nat T) 0) as [E | E]; [lia |].
  split.
  - apply Z.div_pos; lia.
  - apply Z.div_le_upper_bound; lia.
Qed.


End fuzz_facts.

(** ** The search *)

Section SearchFacts.

Variable columns_info : list column_info.
Variable fuzz_ratio : string -> string -> Z.

Local Abbreviation score := (get_best_match_score columns_info fuzz_ratio).
Local Abbreviation scores := (match_scores columns_info fuzz_ratio).
Local Abbreviation search := (perform_fuzzy_search columns_info fuzz_ratio).

Lemma score_total row query exclude_columns :
  aligned columns_info row ->
  exists best, score row query exclude_columns = Ok best.
Proof.
  intros Hal. eexists. now apply score_running_max.
Qed.

(** The comprehension pairs each record, in order, with its score. *)
Lemma match_scores_Ok query exclude_columns (all_rows : list Row) :
  Forall (aligned columns_info) all_rows ->
  exists scored,
    scores query exclude_columns all_rows = Ok scored /\
    map fst scored = all_rows /\
    Forall (fun p => score (fst p) query exclude_columns = Ok (snd p)) scored.
Proof.
  induction 1 as [|row rest Hrow _ IH]; simpl.
  - exists []. repeat split; constructor.
  - destruct (score_total row query exclude_columns Hrow) as [best Hbest].
    destruct IH as [scored [Hs [Hfst Hall]]].
    exists ((row, best) :: scored). rewrite Hbest, Hs. simpl.
    repeat split; [now rewrite Hfst | now constructor].
Qed.

Lemma perform_fuzzy_search_Ok query (all_rows : list Row) :
  Forall (aligned columns_info) all_rows ->
  exists scored,
    scores query excluded_columns all_rows = Ok scored /\
    map fst scored = all_rows /\
    Forall (fun p => score (fst p) query excluded_columns = Ok (snd p)) scored /\
    search query all_rows = Ok (firstn 10 (sorted_reverse snd scored)).
Proof.
  intros Hal.
  destruct (match_scores_Ok query excluded_columns all_rows Hal)
    as [scored [Hs [Hfst Hall]]].
  exists scored. unfold perform_fuzzy_search. rewrite Hs. simpl. auto.
Qed.

End SearchFacts.

(** ** Records, rendering and ranking *)

Lemma set_field_other (row : Row) (v : value) :
  forall i j, i <> j -> nth_error (set_field row i v) j = nth_error row j.
Proof.
  induction row as [|x row IH]; intros i j Hij.
  - reflexivity.
  - destruct i as [|i], j as [|j]; simpl; try reflexivity.
    + congruence.
    + apply IH. congruence.
Qed.

Lemma demo_rows_aligned : Forall (aligned demo_columns) many_takes.
Proof.
  unfold many_takes. simpl. repeat constructor.
Qed.

Section RenderFacts.

Variable columns_info : list column_info.

(** Two lists of cells with the same values at the columns shown. *)
Local Abbreviation same_shown :=
  (Forall2 (fun c1 c2 : nat * value =>
              fst c1 = fst c2 /\
              forall info, nth_error columns_info (fst c1) = Some info ->
                           contains excluded_columns (ci_name info) = false ->
                           snd c1 = snd c2)).

Lemma render_cells_reads_shown hdrs row cells1 cells2 :
  same_shown cells1 cells2 ->
  forall table,
    render_cells columns_info hdrs row cells1 table
    = render_cells columns_info hdrs row cells2 table.
Proof.
  induction 1 as [| [i1 v1] [i2 v2] cells1 cells2 [Hi Hv] _ IH]; intros table.
  - reflexivity.
  - cbn [fst snd] in Hi, Hv. subst i2. cbn [render_cells]. unfold getitem.
    destruct (nth_error columns_info i1) as [info|]; cbn [bind]; [| reflexivity].
    destruct (contains excluded_columns (ci_name info)) eqn:Hex; cbn [negb].
    + apply IH.
    + rewrite (Hv info eq_refl Hex).
      destruct (index hdrs (ci_name info)); cbn [bind]; [apply IH | reflexivity].
Qed.

Lemma enumerate_same_shown (r1 : Row) :
  forall (r2 : Row) k,
    length r1 = length r2 ->
    (forall j info, nth_error columns_info (k + j) = Some info ->
                    contains excluded_columns (ci_name info) = false ->
                    nth_error r1 j = nth_error r2 j) ->
    same_shown (enumerate_from k r1) (enumerate_from k r2).
Proof.
  induction r1 as [|v1 r1 IH]; intros [|v2 r2] k Hlen Hsame;
    simpl in *; try discriminate; constructor.
  - simpl. split; [reflexivity |]. intros info Hc Hex.
    specialize (Hsame O info). rewrite Nat.add_0_r in Hsame.
    specialize (Hsame Hc Hex). simpl in Hsame. congruence.
  - apply IH; [congruence |]. intros j info Hc Hex.
    apply (Hsame (S j) info); [| exact Hex].
    now rewrite Nat.add_succ_r.
Qed.

(** What is drawn of a match does not depend on its excluded fields. *)
Lemma render_cells_hides_excluded hdrs row (r1 r2 : Row) table :
  agree_on_visible columns_info excluded_columns r1 r2 ->
  render_cells columns_info hdrs row (enumerate r1) table
  = render_cells columns_info hdrs row (enumerate r2) table.
Proof.
  intros [Hlen Hsame]. apply render_cells_reads_shown.
  apply enumerate_same_shown; [exact Hlen |].
  intros j info. simpl. apply Hsame.
Qed.

End RenderFacts.

Section RankFacts.

Variable columns_info : list column_info.
Variable fuzz_ratio : string -> string -> Z.

Local Abbreviation score := (get_best_match_score columns_info fuzz_ratio).



Lemma scored_entry query exclude_columns (all_rows : list Row) scored row s :
  map fst scored = all_rows ->
  Forall (fun p => score (fst p) query exclude_columns = Ok (snd p)) scored ->
  In row all_rows ->
  score row query exclude_columns = Ok s ->
  In (row, s) scored.
Proof.
  intros Hfst Hall Hin Hs. rewrite <- Hfst in Hin.
  apply in_map_iff in Hin. destruct Hin as [[r s'] [Hr Hp]].
  simpl in Hr. subst r.
  rewrite Forall_forall in Hall. specialize (Hall _ Hp). simpl in Hall.
  congruence.
Qed.

End RankFacts.


(** ** The properties *)

(** C1: the score of a record is the maximum of the per-field scores over
    the positions whose column is not excluded and whose value is not
    null, and 0 when there is no such position. The metric is taken to be
    non-negative, as a similarity ratio is. *)
Theorem best_score_is_max_field_score
    (columns_info : list column_info) (fuzz_ratio : string -> string -> Z)
    (row : Row) (query : string) (exclude_columns : list string) :
  (forall a b, 0 <= fuzz_ratio a b) ->
  aligned columns_info row ->
  exists best,
    get_best_match_score columns_info fuzz_ratio row query exclude_columns = Ok best /\
    best = max_score (field_scores columns_info fuzz_ratio row query exclude_columns) /\
    (scored_positions columns_info row exclude_columns = [] -> best = 0) /\
    (scored_positions columns_info row exclude_columns <> [] ->
       In best (field_scores columns_info fuzz_ratio row query exclude_columns)) /\
    Forall (fun s => s <= best)
      (field_scores columns_info fuzz_ratio row query exclude_columns).
Proof.
  intros Hpos Hal.
  exists (fold_left Z.max
            (field_scores columns_info fuzz_ratio row query exclude_columns) 0).
  split; [now apply score_running_max |].
  split; [apply running_max_is_max_score |].
  split; [| split].
  - unfold field_scores. intros E. now rewrite E.
  - intros Hne.
    destruct (running_max_attained
                (field_scores columns_info fuzz_ratio row query exclude_columns) 0)
      as [E | Hin]; [| exact Hin].
    rewrite E. unfold field_scores in *.
    destruct (scored_positions columns_info row exclude_columns) as [|i l];
      [congruence |].
    simpl in *. left.
    pose proof (running_max_ge_start
                  (map (fun i => field_score fuzz_ratio (nth i row VNone) query) l)
                  (Z.max 0 (field_score fuzz_ratio (nth i row VNone) query))) as Hge.
    pose proof (Hpos (lower (str (nth i row VNone))) (lower query)) as Hi.
    unfold field_score in *. lia.
  - apply running_max_ge_all.
Qed.

Lemma best_score_is_max_field_score_witness :
  exists best,
    get_best_match_score demo_columns fuzz.ratio sunrise "sunrize" excluded_columns
    = Ok best /\
    best = max_score (field_scores demo_columns fuzz.ratio sunrise "sunrize"
                        excluded_columns) /\
    (scored_positions demo_columns sunrise excluded_columns = [] -> best = 0) /\
    (scored_positions demo_columns sunrise excluded_columns <> [] ->
       In best (field_scores demo_columns fuzz.ratio sunrise "sunrize"
                  excluded_columns)) /\
    Forall (fun s => s <= best)
      (field_scores demo_columns fuzz.ratio sunrise "sunrize" excluded_columns).
Proof.
  apply (best_score_is_max_field_score demo_columns fuzz.ratio sunrise "sunrize"
           excluded_columns).
  - intros a b. apply fuzz_facts.ratio_range.
  - reflexivity.
Defined.

(** C3: the result of the search is in descending order of score, and
    the records of one score stand in it in the order in which they were
    fetched: they are the first of that score among the fetched ones. *)
Theorem search_result_sorted_stable
    (columns_info : list column_info) (fuzz_ratio : string -> string -> Z)
    (query : string) (all_rows : list Row) :
  Forall (aligned columns_info) all_rows ->
  exists scored top_matches,
    match_scores columns_info fuzz_ratio query excluded_columns all_rows = Ok scored /\
    map fst scored = all_rows /\
    perform_fuzzy_search columns_info fuzz_ratio query all_rows = Ok top_matches /\
    descending top_matches /\
    forall s, exists later,
      filter (has_score s) scored = filter (has_score s) top_matches ++ later.
Proof.
  intros Hal.
  destruct (perform_fuzzy_search_Ok columns_info fuzz_ratio query all_rows Hal)
    as [scored [Hs [Hfst [_ Hres]]]].
  exists scored, (firstn 10 (sorted_reverse snd scored)).
  repeat split; try assumption.
  - apply StronglySorted_firstn, (sorted_reverse_sorted snd).
  - intros s. exists (filter (has_score s) (skipn 10 (sorted_reverse snd scored))).
    rewrite <- filter_firstn_prefix. unfold has_score.
    symmetry. apply (sorted_reverse_stable snd).
Qed.

Lemma search_result_sorted_stable_witness :
  exists scored top_matches,
    match_scores demo_columns fuzz.ratio "sunrise" excluded_columns many_takes
    = Ok scored /\
    map fst scored = many_takes /\
    perform_fuzzy_search demo_columns fuzz.ratio "sunrise" many_takes
    = Ok top_matches /\
    descending top_matches /\
    forall s, exists later,
      filter (has_score s) scored = filter (has_score s) top_matches ++ later.
Proof.
  apply (search_result_sorted_stable demo_columns fuzz.ratio "sunrise" many_takes).
  exact demo_rows_aligned.
Defined.

(** C4: the search returns min(10, number of records) entries, and they
    are fetched records: with the records cut off they are a
    rearrangement of the fetch. With ten records or fewer nothing is cut
    off, so that all of them are returned. *)
Theorem search_result_length
    (columns_info : list column_info) (fuzz_ratio : string -> string -> Z)
    (query : string) (all_rows : list Row) :
  Forall (aligned columns_info) all_rows ->
  exists top_matches cut,
    perform_fuzzy_search columns_info fuzz_ratio query all_rows = Ok top_matches /\
    length top_matches = Nat.min 10 (length all_rows) /\
    Permutation (map fst top_matches ++ cut) all_rows /\
    ((length all_rows <= 10)%nat -> cut = []).
Proof.
  intros Hal.
  destruct (perform_fuzzy_search_Ok columns_info fuzz_ratio query all_rows Hal)
    as [scored [_ [Hfst [_ Hres]]]].
  assert (Hlen : length (sorted_reverse snd scored) = length all_rows)
    by (rewrite sorted_reverse_length, <- Hfst; now rewrite length_map).
  exists (firstn 10 (sorted_reverse snd scored)),
    (map fst (skipn 10 (sorted_reverse snd scored))).
  split; [exact Hres |]. split; [| split].
  - now rewrite length_firstn, Hlen.
  - rewrite <- map_app, firstn_skipn, <- Hfst.
    apply Permutation_map, sorted_reverse_perm.
  - intros Hfew. rewrite skipn_all2; [reflexivity | lia].
Qed.

Lemma search_result_length_witness :
  exists top_matches cut,
    perform_fuzzy_search demo_columns fuzz.ratio "sunrise" [sunrise; midnight_drive]
    = Ok top_matches /\
    length top_matches = Nat.min 10 (length [sunrise; midnight_drive]) /\
    Permutation (map fst top_matches ++ cut) [sunrise; midnight_drive] /\
    ((length [sunrise; midnight_drive] <= 10)%nat -> cut = []).
Proof.
  apply (search_result_length demo_columns fuzz.ratio "sunrise"
           [sunrise; midnight_drive]).
  repeat constructor.
Defined.

(** C5: with the empty query the search handler leaves the result table
    with no row and no item, whatever the records and whatever the table
    showed before; the records are not scored at all. *)
Theorem empty_query_shows_nothing
    (columns_info : list column_info) (fuzz_ratio : string -> string -> Z)
    (self : SearchApp) (all_rows : list Row) :
  exists self',
    perform_search columns_info fuzz_ratio self "" all_rows = Ok self' /\
    rowCount (result_table self') = O /\
    items (result_table self') = [] /\
    headers self' = headers self.
Proof.
  eexists. split; [reflexivity |]. simpl. repeat split.
  induction (items (result_table self)) as [|it l IH]; [reflexivity | exact IH].
Qed.

(** C6: replacing the value of a field whose column name is excluded
    leaves the score of the record unchanged. *)
Theorem excluded_field_never_scores
    (columns_info : list column_info) (fuzz_ratio : string -> string -> Z)
    (row : Row) (query : string) (exclude_columns : list string)
    (i : nat) (info : column_info) (v' : value) :
  nth_error columns_info i = Some info ->
  contains exclude_columns (ci_name info) = true ->
  get_best_match_score columns_info fuzz_ratio (set_field row i v') query
    exclude_columns
  = get_best_match_score columns_info fuzz_ratio row query exclude_columns.
Proof.
  intros Hcol Hex. unfold get_best_match_score.
  apply loop_reads_visible. intros index info' Hin Hvis.
  apply in_enumerate in Hin.
  apply set_field_other. intros ->.
  rewrite Hcol in Hin. inversion Hin; subst. congruence.
Qed.

Lemma excluded_field_never_scores_witness :
  get_best_match_score demo_columns fuzz.ratio
    (set_field midnight_drive 0 (VStr "midnight drive")) "sunrise" excluded_columns
  = get_best_match_score demo_columns fuzz.ratio midnight_drive "sunrise"
      excluded_columns.
Proof.
  apply (excluded_field_never_scores demo_columns fuzz.ratio midnight_drive
           "sunrise" excluded_columns 0 (column 0 "uuid" "TEXT")
           (VStr "midnight drive")).
  - reflexivity.
  - reflexivity.
Defined.



(** C8: the score of a record is at least 0 and at most 100. The lower
    bound is the initial [best_score]; the upper bound is that of the
    metric, which is taken to stay within 100. *)
Theorem best_score_range
    (columns_info : list column_info) (fuzz_ratio : string -> string -> Z)
    (row : Row) (query : string) (exclude_columns : list string) :
  (forall a b, fuzz_ratio a b <= 100) ->
  aligned columns_info row ->
  exists best,
    get_best_match_score columns_info fuzz_ratio row query exclude_columns = Ok best /\
    0 <= best <= 100.
Proof.
  intros Hmax Hal. eexists. split; [now apply score_running_max |].
  split; [apply running_max_ge_start |].
  destruct (running_max_attained
              (field_scores columns_info fuzz_ratio row query exclude_columns) 0)
    as [E | Hin].
  - rewrite E. lia.
  - unfold field_scores in Hin at 2. apply in_map_iff in Hin.
    destruct Hin as [i [Hi _]]. rewrite <- Hi. apply Hmax.
Qed.

Lemma best_score_range_witness :
  exists best,
    get_best_match_score demo_columns fuzz.ratio midnight_drive "Midnight"
      excluded_columns = Ok best /\
    0 <= best <= 100.
Proof.
  apply (best_score_range demo_columns fuzz.ratio midnight_drive "Midnight"
           excluded_columns).
  - intros a b. apply fuzz_facts.ratio_range.
  - reflexivity.
Defined.

(** C9: the entries the search returns are fetched records, whole, each
    paired with its score: together with the entries cut off they are a
    rearrangement of the scored input. The excluded fields are dropped
    only when a match is drawn: the cells drawn for two records that
    differ in excluded fields alone are the same. *)
Theorem search_returns_whole_records
    (columns_info : list column_info) (fuzz_ratio : string -> string -> Z)
    (query : string) (all_rows : list Row) :
  Forall (aligned columns_info) all_rows ->
  exists scored top_matches cut,
    match_scores columns_info fuzz_ratio query excluded_columns all_rows = Ok scored /\
    map fst scored = all_rows /\
    perform_fuzzy_search columns_info fuzz_ratio query all_rows = Ok top_matches /\
    Permutation (top_matches ++ cut) scored /\
    Forall (fun entry => In (fst entry) all_rows) top_matches /\
    forall hdrs row r1 r2 table,
      agree_on_visible columns_info excluded_columns r1 r2 ->
      render_cells columns_info hdrs row (enumerate r1) table
      = render_cells columns_info hdrs row (enumerate r2) table.
Proof.
  intros Hal.
  destruct (perform_fuzzy_search_Ok columns_info fuzz_ratio query all_rows Hal)
    as [scored [Hs [Hfst [_ Hres]]]].
  exists scored, (firstn 10 (sorted_reverse snd scored)),
    (skipn 10 (sorted_reverse snd scored)).
  assert (Hperm : Permutation
                    (firstn 10 (sorted_reverse snd scored)
                     ++ skipn 10 (sorted_reverse snd scored)) scored)
    by (rewrite firstn_skipn; apply sorted_reverse_perm).
  repeat split; try assumption.
  - apply Forall_forall. intros entry Hin.
    rewrite <- Hfst. apply in_map.
    apply (Permutation_in _ Hperm). apply in_or_app. now left.
  - intros hdrs row r1 r2 table. apply render_cells_hides_excluded.
Qed.

Lemma search_returns_whole_records_witness :
  exists scored top_matches cut,
    match_scores demo_columns fuzz.ratio "drive" excluded_columns many_takes
    = Ok scored /\
    map fst scored = many_takes /\
    perform_fuzzy_search demo_columns fuzz.ratio "drive" many_takes = Ok top_matches /\
    Permutation (top_matches ++ cut) scored /\
    Forall (fun entry => In (fst entry) many_takes) top_matches /\
    forall hdrs row r1 r2 table,
      agree_on_visible demo_columns excluded_columns r1 r2 ->
      render_cells demo_columns hdrs row (enumerate r1) table
      = render_cells demo_columns hdrs row (enumerate r2) table.
Proof.
  apply (search_returns_whole_records demo_columns fuzz.ratio "drive" many_takes).
  exact demo_rows_aligned.
Defined.

(** C10, as amended: two queries that are equal up to the case of their
    ASCII letters give a record the same score, whatever the excluded
    columns. *)
Theorem score_ignores_query_case
    (columns_info : list column_info) (fuzz_ratio : string -> string -> Z)
    (row : Row) (q1 q2 : string) (exclude_columns : list string) :
  eq_upto_case q1 q2 ->
  get_best_match_score columns_info fuzz_ratio row q1 exclude_columns
  = get_best_match_score columns_info fuzz_ratio row q2 exclude_columns.
Proof.
  intros Hq. unfold get_best_match_score.
  apply loop_reads_lower. now apply eq_upto_case_lower.
Qed.

Lemma score_ignores_query_case_witness :
  get_best_match_score demo_columns fuzz.ratio sunrise "Sun" excluded_columns
  = get_best_match_score demo_columns fuzz.ratio sunrise "sUN" excluded_columns.
Proof.
  apply (score_ignores_query_case demo_columns fuzz.ratio sunrise "Sun" "sUN"
           excluded_columns).
  apply eq_upto_case_cons; [apply (same_letter_lower "S"%char); reflexivity |].
  apply eq_upto_case_cons; [apply (same_letter_upper "u"%char); reflexivity |].
  apply eq_upto_case_cons; [apply (same_letter_upper "n"%char); reflexivity |].
  apply eq_upto_case_nil.
Defined.

(** C10, as stated, fails outside ASCII: the dotless i and the capital I
    are one letter in two cases, the upper-case form of both being I, but
    [lower] turns the capital I into i and leaves the dotless i as it is;
    a record named i scores 100 for the one query and 0 for the other. *)
Lemma dotless_i_query_scores_apart :
  upper dotless_i = upper "I" /\
  lower dotless_i = dotless_i /\
  lower "I" = "i" /\
  get_best_match_score demo_columns fuzz.ratio letter_i_row "I" excluded_columns
  = Ok 100 /\
  get_best_match_score demo_columns fuzz.ratio letter_i_row dotless_i
    excluded_columns = Ok 0.
Proof.
  repeat split; vm_compute; reflexivity.
Qed.

(** ** Further properties: errors of the scoring *)

Section ErrorFacts.

Variable fuzz_ratio : string -> string -> Z.

Local Abbreviation loop := (get_best_match_score_loop fuzz_ratio).

(** The loop ends with a score or with [IndexError], and with the error
    exactly when a column that is not excluded lies past the record. *)
Lemma loop_raises row query exclude_columns (l : list column_info) :
  forall k best_score,
    ((exists best,
         loop row query exclude_columns (enumerate_from k l) best_score = Ok best) \/
     loop row query exclude_columns (enumerate_from k l) best_score = Raise IndexError) /\
    (loop row query exclude_columns (enumerate_from k l) best_score = Raise IndexError
     <-> exists j info,
           nth_error l j = Some info /\
           contains exclude_columns (ci_name info) = false /\
           (length row <= k + j)%nat).
Proof.
  induction l as [|info l IH]; intros k best_score.
  - simpl. split; [left; now eexists |].
    split; [discriminate |]. intros [[|j] [info [Hj _]]]; discriminate.
  - cbn [enumerate_from get_best_match_score_loop].
    assert (Hshift : (exists j info',
                         nth_error l j = Some info' /\
                         contains exclude_columns (ci_name info') = false /\
                         (length row <= S k + j)%nat) ->
                     exists j info',
                       nth_error (info :: l) j = Some info' /\
                       contains exclude_columns (ci_name info') = false /\
                       (length row <= k + j)%nat).
    { intros [j [info' [Hj [Hex Hlen]]]]. exists (S j), info'.
      repeat split; [exact Hj | exact Hex | lia]. }
    destruct (contains exclude_columns (ci_name info)) eqn:Hex; cbn [negb].
    + destruct (IH (S k) best_score) as [Hres Hiff].
      split; [exact Hres |]. rewrite Hiff. split; [exact Hshift |].
      intros [[|j] [info' [Hj [Hex' Hlen]]]]; simpl in Hj.
      * inversion Hj; subst. congruence.
      * exists j, info'. repeat split; [exact Hj | exact Hex' | lia].
    + unfold getitem. destruct (nth_error row k) as [v|] eqn:Hv; cbn [bind].
      * assert (Hk : (k < length row)%nat) by (apply nth_error_Some; congruence).
        assert (Hback : (exists j info',
                            nth_error (info :: l) j = Some info' /\
                            contains exclude_columns (ci_name info') = false /\
                            (length row <= k + j)%nat) ->
                        exists j info',
                          nth_error l j = Some info' /\
                          contains exclude_columns (ci_name info') = false /\
                          (length row <= S k + j)%nat).
        { intros [[|j] [info' [Hj [Hex' Hlen]]]]; simpl in Hj; [lia |].
          exists j, info'. repeat split; [exact Hj | exact Hex' | lia]. }
        destruct (negb (is_none v)).
        -- destruct (IH (S k) (Z.max best_score (field_score fuzz_ratio v query)))
             as [Hres Hiff].
           split; [exact Hres |]. rewrite Hiff. split; [exact Hshift | exact Hback].
        -- destruct (IH (S k) best_score) as [Hres Hiff].
           split; [exact Hres |]. rewrite Hiff. split; [exact Hshift | exact Hback].
      * apply nth_error_None in Hv. split; [now right |].
        split; [| reflexivity]. intros _. exists O, info.
        repeat split; [exact Hex | lia].
Qed.

End ErrorFacts.

(** X1: [get_best_match_score] ends with a score or with [IndexError],
    and with [IndexError] exactly when the record is too short for some
    column that is not excluded; a short record whose missing positions
    are all excluded columns is scored. *)
Theorem score_raises_iff_unreadable
    (columns_info : list column_info) (fuzz_ratio : string -> string -> Z)
    (row : Row) (query : string) (exclude_columns : list string) :
  ((exists best,
       get_best_match_score columns_info fuzz_ratio row query exclude_columns
       = Ok best) \/
   get_best_match_score columns_info fuzz_ratio row query exclude_columns
   = Raise IndexError) /\
  (get_best_match_score columns_info fuzz_ratio row query exclude_columns
   = Raise IndexError
   <-> unreadable columns_info exclude_columns row).
Proof.
  unfold get_best_match_score, enumerate, unreadable.
  apply (loop_raises fuzz_ratio row query exclude_columns columns_info 0 0).
Qed.

Section SearchErrorFacts.

Variable columns_info : list column_info.
Variable fuzz_ratio : string -> string -> Z.

Lemma match_scores_raises query exclude_columns (all_rows : list Row) :
  ((exists scored,
       match_scores columns_info fuzz_ratio query exclude_columns all_rows
       = Ok scored) \/
   match_scores columns_info fuzz_ratio query exclude_columns all_rows
   = Raise IndexError) /\
  (match_scores columns_info fuzz_ratio query exclude_columns all_rows
   = Raise IndexError
   <-> Exists (unreadable columns_info exclude_columns) all_rows).
Proof.
  induction all_rows as [|row rest [IHres IHiff]]; cbn [match_scores].
  - split; [left; now eexists |]. split; [discriminate | inversion 1].
  - destruct (loop_raises fuzz_ratio row query exclude_columns columns_info 0 0)
      as [Hres Hiff].
    fold (enumerate columns_info) in Hres, Hiff.
    fold (get_best_match_score columns_info fuzz_ratio row query exclude_columns)
      in Hres, Hiff.
    fold (unreadable columns_info exclude_columns row) in Hiff.
    destruct Hres as [[best Hbest] | Hraise].
    + rewrite Hbest. cbn [bind].
      assert (Hrow : ~ unreadable columns_info exclude_columns row)
        by (rewrite <- Hiff, Hbest; discriminate).
      destruct IHres as [[scored Hs] | Hr].
      * rewrite Hs. cbn [bind]. split; [left; now eexists |].
        split; [discriminate |].
        intros HE. inversion HE; subst; [contradiction |].
        apply IHiff in H0. congruence.
      * rewrite Hr. cbn [bind]. split; [now right |].
        split; [| reflexivity]. intros _. apply Exists_cons_tl. now apply IHiff.
    + rewrite Hraise. cbn [bind]. split; [now right |].
      split; [| reflexivity]. intros _. apply Exists_cons_hd. now apply Hiff.
Qed.

End SearchErrorFacts.

(** X2: the scoring and ranking of the fetched records in
    [perform_fuzzy_search]: when one of the records is too short for a
    column that is not excluded, the search raises [IndexError], one such
    record failing the whole search; when none is, the search returns a
    result. *)
Theorem search_raises_iff_unreadable
    (columns_info : list column_info) (fuzz_ratio : string -> string -> Z)
    (query : string) (all_rows : list Row) :
  (Exists (unreadable columns_info excluded_columns) all_rows ->
   perform_fuzzy_search columns_info fuzz_ratio query all_rows = Raise IndexError) /\
  (~ Exists (unreadable columns_info excluded_columns) all_rows ->
   exists top_matches,
     perform_fuzzy_search columns_info fuzz_ratio query all_rows = Ok top_matches).
Proof.
  unfold perform_fuzzy_search.
  destruct (match_scores_raises columns_info fuzz_ratio query excluded_columns all_rows)
    as [[[scored Hs] | Hr] Hiff].
  - rewrite Hs in *. cbn [bind]. split.
    + intros HE. apply Hiff in HE. discriminate HE.
    + intros _. now eexists.
  - rewrite Hr in *. cbn [bind]. split.
    + intros _. reflexivity.
    + intros Hno. exfalso. apply Hno. now apply Hiff.
Qed.

(** ** Further properties: the ranking *)

Lemma StronglySorted_app_order {A : Type} (R : A -> A -> Prop) (l1 l2 : list A) :
  StronglySorted R (l1 ++ l2) ->
  forall x y, In x l1 -> In y l2 -> R x y.
Proof.
  induction l1 as [|z l1 IH]; intros Hs x y Hx Hy; [contradiction |].
  simpl in Hs. inversion Hs as [|? ? Htl Hall]; subst.
  destruct Hx as [-> | Hx].
  - rewrite Forall_forall in Hall. apply Hall. apply in_or_app. now right.
  - now apply IH.
Qed.

(** X3: the entries the search returns are the best ones: no record that
    is cut off scores above a returned one. *)
Theorem search_returns_the_best
    (columns_info : list column_info) (fuzz_ratio : string -> string -> Z)
    (query : string) (all_rows : list Row) :
  Forall (aligned columns_info) all_rows ->
  exists scored top_matches cut,
    match_scores columns_info fuzz_ratio query excluded_columns all_rows = Ok scored /\
    map fst scored = all_rows /\
    perform_fuzzy_search columns_info fuzz_ratio query all_rows = Ok top_matches /\
    Permutation (top_matches ++ cut) scored /\
    forall kept lost, In kept top_matches -> In lost cut -> snd lost <= snd kept.
Proof.
  intros Hal.
  destruct (perform_fuzzy_search_Ok columns_info fuzz_ratio query all_rows Hal)
    as [scored [Hs [Hfst [_ Hres]]]].
  exists scored, (firstn 10 (sorted_reverse snd scored)),
    (skipn 10 (sorted_reverse snd scored)).
  repeat split; try assumption.
  - rewrite firstn_skipn. apply sorted_reverse_perm.
  - intros kept lost Hk Hl.
    apply (StronglySorted_app_order (fun x y : Row * Z => snd y <= snd x)
             (firstn 10 (sorted_reverse snd scored))
             (skipn 10 (sorted_reverse snd scored))); try assumption.
    rewrite firstn_skipn. apply (sorted_reverse_sorted snd).
Qed.

Lemma search_returns_the_best_witness :
  exists scored top_matches cut,
    match_scores demo_columns fuzz.ratio "sunrise" excluded_columns many_takes
    = Ok scored /\
    map fst scored = many_takes /\
    perform_fuzzy_search demo_columns fuzz.ratio "sunrise" many_takes
    = Ok top_matches /\
    Permutation (top_matches ++ cut) scored /\
    forall kept lost, In kept top_matches -> In lost cut -> snd lost <= snd kept.
Proof.
  apply (search_returns_the_best demo_columns fuzz.ratio "sunrise" many_takes).
  exact demo_rows_aligned.
Defined.

(** X4: when records were fetched, the first entry of the result is a
    fetched record paired with its own score, and no fetched record
    scores higher. *)
Theorem best_match_comes_first
    (columns_info : list column_info) (fuzz_ratio : string -> string -> Z)
    (query : string) (all_rows : list Row) :
  Forall (aligned columns_info) all_rows ->
  all_rows <> [] ->
  exists best s others,
    perform_fuzzy_search columns_info fuzz_ratio query all_rows
    = Ok ((best, s) :: others) /\
    In best all_rows /\
    get_best_match_score columns_info fuzz_ratio best query excluded_columns = Ok s /\
    forall row s',
      In row all_rows ->
      get_best_match_score columns_info fuzz_ratio row query excluded_columns = Ok s' ->
      s' <= s.
Proof.
  intros Hal Hne.
  destruct (perform_fuzzy_search_Ok columns_info fuzz_ratio query all_rows Hal)
    as [scored [Hs [Hfst [Hall Hres]]]].
  pose proof (sorted_reverse_perm snd scored) as Hperm.
  pose proof (sorted_reverse_sorted snd scored) as Hsorted.
  destruct (sorted_reverse snd scored) as [|[best s] ranking] eqn:Hrank.
  - apply Permutation_nil in Hperm. subst scored. simpl in Hfst. congruence.
  - exists best, s, (firstn 9 ranking).
    assert (Hin : In (best, s) scored)
      by (apply (Permutation_in _ Hperm); now left).
    split; [exact Hres |]. split; [| split].
    + rewrite <- Hfst. now apply (in_map fst) in Hin.
    + rewrite Forall_forall in Hall. apply (Hall _ Hin).
    + intros row s' Hrow Hscore.
      assert (Hin' : In (row, s') ((best, s) :: ranking)).
      { apply (Permutation_in _ (Permutation_sym Hperm)).
        eapply scored_entry; eassumption. }
      inversion Hsorted as [|? ? _ Hfirst]; subst.
      destruct Hin' as [Heq | Hin'].
      * inversion Heq; subst. lia.
      * rewrite Forall_forall in Hfirst. apply (Hfirst _ Hin').
Qed.

Lemma best_match_comes_first_witness :
  exists best s others,
    perform_fuzzy_search demo_columns fuzz.ratio "sunrise" many_takes
    = Ok ((best, s) :: others) /\
    In best many_takes /\
    get_best_match_score demo_columns fuzz.ratio best "sunrise" excluded_columns
    = Ok s /\
    forall row s',
      In row many_takes ->
      get_best_match_score demo_columns fuzz.ratio row "sunrise" excluded_columns
      = Ok s' ->
      s' <= s.
Proof.
  apply (best_match_comes_first demo_columns fuzz.ratio "sunrise" many_takes).
  - exact demo_rows_aligned.
  - discriminate.
Defined.

(** ** Further properties: the case of the query *)

Lemma eq_upto_case_is_empty (q1 q2 : string) :
  eq_upto_case q1 q2 -> is_empty q1 = is_empty q2.
Proof. now destruct 1. Qed.

Lemma match_scores_reads_lower
    (columns_info : list column_info) (fuzz_ratio : string -> string -> Z)
    (q1 q2 : string) (exclude_columns : list string) (all_rows : list Row) :
  lower q1 = lower q2 ->
  match_scores columns_info fuzz_ratio q1 exclude_columns all_rows
  = match_scores columns_info fuzz_ratio q2 exclude_columns all_rows.
Proof.
  intros Hq. induction all_rows as [|row rest IH]; cbn [match_scores].
  - reflexivity.
  - unfold get_best_match_score.
    rewrite (loop_reads_lower fuzz_ratio row q1 q2 exclude_columns Hq).
    now rewrite IH.
Qed.

(** X5: two queries that are equal up to the case of their letters give
    the same search result and leave the same table, errors included. *)
Theorem search_ignores_query_case
    (columns_info : list column_info) (fuzz_ratio : string -> string -> Z)
    (self : SearchApp) (q1 q2 : string) (all_rows : list Row) :
  eq_upto_case q1 q2 ->
  perform_fuzzy_search columns_info fuzz_ratio q1 all_rows
  = perform_fuzzy_search columns_info fuzz_ratio q2 all_rows /\
  perform_search columns_info fuzz_ratio self q1 all_rows
  = perform_search columns_info fuzz_ratio self q2 all_rows.
Proof.
  intros Hq.
  assert (Hsearch : perform_fuzzy_search columns_info fuzz_ratio q1 all_rows
                    = perform_fuzzy_search columns_info fuzz_ratio q2 all_rows).
  { unfold perform_fuzzy_search.
    now rewrite (match_scores_reads_lower columns_info fuzz_ratio q1 q2
                   excluded_columns all_rows (eq_upto_case_lower q1 q2 Hq)). }
  split; [exact Hsearch |].
  unfold perform_search.
  now rewrite (eq_upto_case_is_empty q1 q2 Hq), Hsearch.
Qed.

Lemma search_ignores_query_case_witness :
  perform_fuzzy_search demo_columns fuzz.ratio "Sun" many_takes
  = perform_fuzzy_search demo_columns fuzz.ratio "sUN" many_takes /\
  perform_search demo_columns fuzz.ratio (SearchApp_init demo_columns) "Sun" many_takes
  = perform_search demo_columns fuzz.ratio (SearchApp_init demo_columns) "sUN"
      many_takes.
Proof.
  apply (search_ignores_query_case demo_columns fuzz.ratio
           (SearchApp_init demo_columns) "Sun" "sUN" many_takes).
  apply eq_upto_case_cons; [apply (same_letter_lower "S"%char); reflexivity |].
  apply eq_upto_case_cons; [apply (same_letter_upper "u"%char); reflexivity |].
  apply eq_upto_case_cons; [apply (same_letter_upper "n"%char); reflexivity |].
  apply eq_upto_case_nil.
Defined.

(** ** Further properties: what the table shows *)

Section Forall2Facts.

Context {A : Type}.
Variable same : A -> A -> Prop.

Lemma Forall2_same_length (l1 l2 : list A) :
  Forall2 same l1 l2 -> length l1 = length l2.
Proof. induction 1; simpl; congruence. Qed.

Lemma Forall2_same_firstn (n : nat) (l1 l2 : list A) :
  Forall2 same l1 l2 -> Forall2 same (firstn n l1) (firstn n l2).
Proof.
  intros H. revert n. induction H; intros [|n]; simpl; constructor; auto.
Qed.

Lemma Forall2_same_enumerate (l1 l2 : list A) :
  Forall2 same l1 l2 ->
  forall k,
    Forall2 (fun e1 e2 : nat * A => fst e1 = fst e2 /\ same (snd e1) (snd e2))
      (enumerate_from k l1) (enumerate_from k l2).
Proof.
  induction 1; intros k; simpl; constructor; auto.
Qed.

Variable key : A -> Z.
Hypothesis same_key : forall x y, same x y -> key x = key y.

Lemma insert_reverse_same (x1 x2 : A) (l1 l2 : list A) :
  same x1 x2 -> Forall2 same l1 l2 ->
  Forall2 same (insert_reverse key x1 l1) (insert_reverse key x2 l2).
Proof.
  intros Hx. induction 1 as [|y1 y2 l1 l2 Hy Hl IH]; simpl.
  - repeat constructor. exact Hx.
  - rewrite (same_key x1 x2 Hx), (same_key y1 y2 Hy).
    destruct (key x2 <? key y2); repeat constructor; assumption.
Qed.

(** Two lists with the same keys, place by place, are sorted alike. *)
Lemma sorted_reverse_same (l1 l2 : list A) :
  Forall2 same l1 l2 ->
  Forall2 same (sorted_reverse key l1) (sorted_reverse key l2).
Proof.
  induction 1; simpl; [constructor | now apply insert_reverse_same].
Qed.

End Forall2Facts.

Section DisplayFacts.

Variable columns_info : list column_info.
Variable fuzz_ratio : string -> string -> Z.

Local Abbreviation same_visible := (agree_on_visible columns_info excluded_columns).
Local Abbreviation same_entry :=
  (fun e1 e2 : Row * Z => same_visible (fst e1) (fst e2) /\ snd e1 = snd e2).

Lemma score_reads_visible r1 r2 query :
  same_visible r1 r2 ->
  get_best_match_score columns_info fuzz_ratio r1 query excluded_columns
  = get_best_match_score columns_info fuzz_ratio r2 query excluded_columns.
Proof.
  intros [_ Hsame]. unfold get_best_match_score.
  apply loop_reads_visible. intros index info Hin Hex.
  apply in_enumerate in Hin. now apply (Hsame index info).
Qed.

Lemma match_scores_read_visible query (rows1 rows2 : list Row) :
  Forall2 same_visible rows1 rows2 ->
  match match_scores columns_info fuzz_ratio query excluded_columns rows1,
              match_scores columns_info fuzz_ratio query excluded_columns rows2 with
  | Ok scored1, Ok scored2 => Forall2 same_entry scored1 scored2
  | Raise e1, Raise e2 => e1 = e2
  | _, _ => False
  end.
Proof.
  induction 1 as [|r1 r2 rows1 rows2 Hr _ IH]; cbn [match_scores].
  - constructor.
  - rewrite (score_reads_visible r1 r2 query Hr).
    destruct (get_best_match_score columns_info fuzz_ratio r2 query excluded_columns)
      as [s|e]; cbn [bind]; [| reflexivity].
    destruct (match_scores columns_info fuzz_ratio query excluded_columns rows1)
      as [scored1|e1],
      (match_scores columns_info fuzz_ratio query excluded_columns rows2)
      as [scored2|e2]; cbn [bind]; try contradiction; try assumption.
    constructor; [now split | exact IH].
Qed.

Lemma render_matches_read_visible hdrs (todo1 todo2 : list (nat * (Row * Z))) :
  Forall2 (fun e1 e2 => fst e1 = fst e2 /\ same_entry (snd e1) (snd e2)) todo1 todo2 ->
  forall table,
    render_matches columns_info hdrs todo1 table
    = render_matches columns_info hdrs todo2 table.
Proof.
  induction 1 as [|[n1 [r1 s1]] [n2 [r2 s2]] todo1 todo2 [Hn [Hr _]] _ IH];
    intros table; cbn [render_matches].
  - reflexivity.
  - cbn [fst snd] in Hn, Hr. subst n2.
    rewrite (render_cells_hides_excluded columns_info hdrs n1 r1 r2 table Hr).
    destruct (render_cells columns_info hdrs n1 (enumerate r2) table);
      cbn [bind]; [apply IH | reflexivity].
Qed.

End DisplayFacts.

(** X6: what [perform_search] leaves in the table does not depend on the
    excluded fields of the records: two fetches that agree, record by
    record, on every column that is not excluded give the same table, or
    the same error. *)
Theorem display_hides_excluded_fields
    (columns_info : list column_info) (fuzz_ratio : string -> string -> Z)
    (self : SearchApp) (query : string) (rows1 rows2 : list Row) :
  Forall2 (agree_on_visible columns_info excluded_columns) rows1 rows2 ->
  perform_search columns_info fuzz_ratio self query rows1
  = perform_search columns_info fuzz_ratio self query rows2.
Proof.
  intros Hrows. unfold perform_search, perform_fuzzy_search.
  destruct (is_empty query); [reflexivity |].
  pose proof (match_scores_read_visible columns_info fuzz_ratio query rows1 rows2 Hrows)
    as Hscored.
  destruct (match_scores columns_info fuzz_ratio query excluded_columns rows1)
    as [scored1|e1],
    (match_scores columns_info fuzz_ratio query excluded_columns rows2)
    as [scored2|e2]; try contradiction; cbn [bind]; [| now subst].
  assert (Htop : Forall2 (fun e1 e2 : Row * Z =>
                            agree_on_visible columns_info excluded_columns
                              (fst e1) (fst e2) /\ snd e1 = snd e2)
                   (firstn 10 (sorted_reverse snd scored1))
                   (firstn 10 (sorted_reverse snd scored2))).
  { apply Forall2_same_firstn. apply sorted_reverse_same; [| exact Hscored].
    intros x y [_ Hs]. exact Hs. }
  rewrite (Forall2_same_length _ _ _ Htop).
  rewrite (render_matches_read_visible columns_info (headers self)
             (enumerate (firstn 10 (sorted_reverse snd scored1)))
             (enumerate (firstn 10 (sorted_reverse snd scored2)))).
  - reflexivity.
  - exact (Forall2_same_enumerate _ _ _ Htop 0%nat).
Qed.

Lemma demo_rows_agree :
  Forall2 (agree_on_visible demo_columns excluded_columns)
    [midnight_drive; sunrise] [take 7; set_field sunrise 0 VNone].
Proof.
  repeat constructor; intros i info Hi Hex;
    (do 4 (destruct i as [|i];
           [ simpl in Hi; inversion Hi; subst;
             try (vm_compute in Hex; discriminate Hex); reflexivity |]));
    destruct i; discriminate Hi.
Qed.

Lemma display_hides_excluded_fields_witness :
  perform_search demo_columns fuzz.ratio (SearchApp_init demo_columns) "drive"
    [midnight_drive; sunrise]
  = perform_search demo_columns fuzz.ratio (SearchApp_init demo_columns) "drive"
      [take 7; set_field sunrise 0 VNone].
Proof.
  apply (display_hides_excluded_fields demo_columns fuzz.ratio
           (SearchApp_init demo_columns) "drive"
           [midnight_drive; sunrise] [take 7; set_field sunrise 0 VNone]).
  exact demo_rows_agree.
Defined.

(** ** Further properties: the cells of the table *)

Lemma same_cell_true (r c : nat) (it : nat * nat * string) :
  same_cell r c it = true <-> fst (fst it) = r /\ snd (fst it) = c.
Proof.
  unfold same_cell. now rewrite andb_true_iff, !Nat.eqb_eq.
Qed.

Lemma find_filter_keeps {A : Type} (p q : A -> bool) (l : list A) :
  (forall x, p x = true -> q x = true) ->
  find p (filter q l) = find p l.
Proof.
  intros Hpq. induction l as [|x l IH]; [reflexivity |].
  simpl. destruct (q x) eqn:Hq; simpl.
  - now rewrite IH.
  - destruct (p x) eqn:Hp; [| exact IH].
    apply Hpq in Hp. congruence.
Qed.

Lemma setItem_counts (table : QTableWidget) (r c : nat) (text : string) :
  rowCount (setItem table r c text) = rowCount table /\
  columnCount (setItem table r c text) = columnCount table.
Proof.
  unfold setItem. now destruct (_ && _)%bool.
Qed.

Lemma setItem_item_text (table : QTableWidget) (r c : nat) (text : string) :
  (r < rowCount table)%nat -> (c < columnCount table)%nat ->
  item_text (setItem table r c text) r c = Some text.
Proof.
  intros Hr Hc. unfold setItem.
  apply Nat.ltb_lt in Hr. apply Nat.ltb_lt in Hc. rewrite Hr, Hc.
  unfold item_text. simpl. unfold same_cell at 1. simpl.
  now rewrite !Nat.eqb_refl.
Qed.

Lemma setItem_other_cell (table : QTableWidget) (r c r' c' : nat) (text : string) :
  r' <> r \/ c' <> c ->
  item_text (setItem table r c text) r' c' = item_text table r' c'.
Proof.
  intros Hne. unfold setItem. destruct (_ && _)%bool; [| reflexivity].
  unfold item_text. simpl.
  assert (Hhead : same_cell r' c' (r, c, text) = false).
  { destruct (same_cell r' c' (r, c, text)) eqn:E; [| reflexivity].
    apply same_cell_true in E. simpl in E. lia. }
  rewrite Hhead. f_equal. apply find_filter_keeps.
  intros it Hit. apply same_cell_true in Hit. apply negb_true_iff.
  destruct (same_cell r c it) eqn:E; [| reflexivity].
  apply same_cell_true in E. lia.
Qed.

Lemma index_found (l : list string) (x : string) :
  In x l -> exists i, index l x = Ok i.
Proof.
  induction l as [|y l IH]; intros Hin; [contradiction |].
  simpl. destruct (String.eqb y x) eqn:E; [now eexists |].
  destruct Hin as [-> | Hin]; [rewrite String.eqb_refl in E; discriminate |].
  destruct (IH Hin) as [i Hi]. rewrite Hi. simpl. now eexists.
Qed.

Lemma index_nth_error (l : list string) (x : string) :
  forall i, index l x = Ok i -> nth_error l i = Some x.
Proof.
  induction l as [|y l IH]; intros i Hi; simpl in Hi; [discriminate |].
  destruct (String.eqb y x) eqn:E.
  - inversion Hi; subst. apply String.eqb_eq in E. now subst.
  - destruct (index l x) as [j|e] eqn:Hj; simpl in Hi; [| discriminate].
    inversion Hi; subst. simpl. now apply IH.
Qed.

Lemma header_of_visible (columns_info : list column_info) (i : nat)
    (info : column_info) :
  nth_error columns_info i = Some info ->
  contains excluded_columns (ci_name info) = false ->
  In (ci_name info) (headers (SearchApp_init columns_info)).
Proof.
  intros Hi Hex. cbn [headers SearchApp_init]. apply in_map. apply filter_In.
  split; [eapply nth_error_In; exact Hi | now rewrite Hex].
Qed.

Lemma distinct_columns_distinct_names (columns_info : list column_info)
    (i j : nat) (a b : column_info) :
  NoDup (map ci_name columns_info) ->
  nth_error columns_info i = Some a -> nth_error columns_info j = Some b ->
  i <> j -> ci_name a <> ci_name b.
Proof.
  intros Hnd Hi Hj Hij Heq.
  rewrite NoDup_nth_error in Hnd. apply Hij, Hnd.
  - rewrite length_map. apply nth_error_Some. congruence.
  - rewrite !nth_error_map, Hi, Hj. simpl. congruence.
Qed.

Lemma enumerate_from_indexes {A : Type} (l : list A) :
  forall k, map fst (enumerate_from k l) = seq k (length l).
Proof.
  induction l as [|x l IH]; intros k; simpl; [reflexivity |]. now rewrite IH.
Qed.

Section DrawFacts.

Variable columns_info : list column_info.

Local Abbreviation hdrs := (headers (SearchApp_init columns_info)).
Local Abbreviation draws :=
  (fun (cells : list (nat * value)) (c : nat) =>
     exists i v info,
       In (i, v) cells /\ nth_error columns_info i = Some info /\
       contains excluded_columns (ci_name info) = false /\
       index hdrs (ci_name info) = Ok c).

(** The cells of one match: the loop ends, keeps the counts, writes in
    its own row only, and there only at the headers of its columns; with
    distinct column names each cell shows the text of its field. *)
Lemma render_cells_draws (row : nat) (cells : list (nat * value)) :
  (forall i v, In (i, v) cells -> (i < length columns_info)%nat) ->
  NoDup (map fst cells) ->
  forall table,
  exists table',
    render_cells columns_info hdrs row cells table = Ok table' /\
    rowCount table' = rowCount table /\
    columnCount table' = columnCount table /\
    (forall r' c', r' <> row -> item_text table' r' c' = item_text table r' c') /\
    (forall c, ~ draws cells c -> item_text table' row c = item_text table row c) /\
    (NoDup (map ci_name columns_info) ->
     (row < rowCount table)%nat ->
     forall i v info h,
       In (i, v) cells -> nth_error columns_info i = Some info ->
       contains excluded_columns (ci_name info) = false ->
       index hdrs (ci_name info) = Ok h ->
       (h < columnCount table)%nat ->
       item_text table' row h = Some (str v)).
Proof.
  induction cells as [|[i v] cells IH]; intros Hrange Hnd table.
  - exists table. repeat split; try reflexivity. intros _ _ i v info h [].
  - assert (Hrange' : forall i' v', In (i', v') cells -> (i' < length columns_info)%nat)
      by (intros i' v' Hin; apply (Hrange i' v'); now right).
    simpl in Hnd. inversion Hnd as [|? ? Hfresh Hnd']; subst.
    cbn [render_cells].
    destruct (getitem_Ok columns_info i (Hrange i v (or_introl eq_refl)))
      as [info [Hget Hinfo]].
    rewrite Hget. cbn [bind].
    destruct (contains excluded_columns (ci_name info)) eqn:Hex; cbn [negb].
    + destruct (IH Hrange' Hnd' table)
        as [table' [Hok [Hrows [Hcols [Hother [Hkeep Hshow]]]]]].
      exists table'. repeat split; try assumption.
      * intros c Hc. apply Hkeep. intros [i' [v' [info' [Hin Hrest]]]].
        apply Hc. exists i', v', info'. split; [now right | exact Hrest].
      * intros Hnames Hrow i' v' info' h [Heq | Hin] Hi' Hex' Hh Hlt.
        -- inversion Heq; subst. congruence.
        -- now apply (Hshow Hnames Hrow i' v' info' h).
    + destruct (index_found hdrs (ci_name info)
                  (header_of_visible columns_info i info Hinfo Hex)) as [h0 Hh0].
      rewrite Hh0. cbn [bind].
      destruct (IH Hrange' Hnd' (setItem table row h0 (str v)))
        as [table' [Hok [Hrows [Hcols [Hother [Hkeep Hshow]]]]]].
      destruct (setItem_counts table row h0 (str v)) as [Hr1 Hc1].
      exists table'. split; [exact Hok |].
      split; [congruence |]. split; [congruence |].
      split; [| split].
      * intros r' c' Hne. rewrite Hother by assumption.
        apply setItem_other_cell. now left.
      * intros c Hc. rewrite Hkeep.
        -- apply setItem_other_cell. right. intros ->. apply Hc.
           exists i, v, info. repeat split; try assumption. now left.
        -- intros [i' [v' [info' [Hin Hrest]]]]. apply Hc.
           exists i', v', info'. split; [now right | exact Hrest].
      * intros Hnames Hrow i' v' info' h [Heq | Hin] Hi' Hex' Hh Hlt.
        -- inversion Heq; subst i' v'.
           assert (info' = info) by congruence. subst info'.
           assert (h = h0) by congruence. subst h.
           rewrite Hkeep; [now apply setItem_item_text |].
           intros [i' [v' [info' [Hin [Hi'' [Hex'' Hh'']]]]]].
           assert (Hne : i' <> i).
           { intros ->. apply Hfresh. apply (in_map fst) in Hin. exact Hin. }
           apply (distinct_columns_distinct_names columns_info i' i info' info
                    Hnames Hi'' Hinfo Hne).
           apply index_nth_error in Hh''. apply index_nth_error in Hh0. congruence.
        -- apply (Hshow Hnames) with (i := i') (info := info'); try assumption;
             congruence.
Qed.

(** The rows of the matches, numbered from [k]. *)
Lemma render_matches_draws (todo : list (Row * Z)) :
  Forall (fun entry => aligned columns_info (fst entry)) todo ->
  forall k table,
  exists table',
    render_matches columns_info hdrs (enumerate_from k todo) table = Ok table' /\
    rowCount table' = rowCount table /\
    columnCount table' = columnCount table /\
    (forall r' c', (r' < k)%nat -> item_text table' r' c' = item_text table r' c') /\
    (NoDup (map ci_name columns_info) ->
     (k + length todo <= rowCount table)%nat ->
     forall j r s i v info h,
       nth_error todo j = Some (r, s) ->
       nth_error columns_info i = Some info ->
       contains excluded_columns (ci_name info) = false ->
       nth_error r i = Some v ->
       index hdrs (ci_name info) = Ok h ->
       (h < columnCount table)%nat ->
       item_text table' (k + j) h = Some (str v)).
Proof.
  induction 1 as [|[r0 s0] todo Hal0 _ IH]; intros k table.
  - exists table. repeat split; try reflexivity.
    intros _ _ [|j] r s i v info h Hj; discriminate Hj.
  - cbn [enumerate_from render_matches]. simpl in Hal0.
    assert (Hrange : forall i v, In (i, v) (enumerate r0) ->
                                 (i < length columns_info)%nat).
    { intros i v Hin. apply in_enumerate in Hin. rewrite <- Hal0.
      apply nth_error_Some. congruence. }
    assert (Hnd : NoDup (map fst (enumerate r0)))
      by (unfold enumerate; rewrite enumerate_from_indexes; apply seq_NoDup).
    destruct (render_cells_draws k (enumerate r0) Hrange Hnd table)
      as [table1 [Hok1 [Hr1 [Hc1 [Hother1 [_ Hshow1]]]]]].
    rewrite Hok1. cbn [bind].
    destruct (IH (S k) table1) as [table' [Hok [Hr [Hc [Hbelow Hshow]]]]].
    exists table'. split; [exact Hok |].
    split; [congruence |]. split; [congruence |]. split.
    + intros r' c' Hlt. rewrite Hbelow by lia. apply Hother1. lia.
    + intros Hnames Hrows j r s i v info h Hj Hi Hex Hv Hh Hlt.
      simpl in Hrows. destruct j as [|j]; simpl in Hj.
      * inversion Hj; subst r0 s0. rewrite Nat.add_0_r.
        rewrite Hbelow by lia.
        apply (Hshow1 Hnames) with (i := i) (info := info); try assumption; try lia.
        unfold enumerate. eapply nth_error_In.
        rewrite enumerate_from_nth_error, Hv. reflexivity.
      * replace (k + S j)%nat with (S k + j)%nat by lia.
        apply (Hshow Hnames) with (r := r) (s := s) (i := i) (info := info);
          try assumption; try lia; congruence.
Qed.

End DrawFacts.

Section HandlerFacts.

Variable columns_info : list column_info.
Variable fuzz_ratio : string -> string -> Z.

(** A search with a query that is not empty, on a window set up by
    [__init__]: the table gets one row for each match, and, the column
    names being distinct, each cell within the table shows its field. *)
Lemma perform_search_draws (self : SearchApp) (query : string) (all_rows : list Row) :
  headers self = headers (SearchApp_init columns_info) ->
  Forall (aligned columns_info) all_rows ->
  is_empty query = false ->
  exists top_matches self',
    perform_fuzzy_search columns_info fuzz_ratio query all_rows = Ok top_matches /\
    length top_matches = Nat.min 10 (length all_rows) /\
    perform_search columns_info fuzz_ratio self query all_rows = Ok self' /\
    headers self' = headers self /\
    rowCount (result_table self') = length top_matches /\
    columnCount (result_table self') = columnCount (result_table self) /\
    (NoDup (map ci_name columns_info) ->
     forall n r s i v info h,
       nth_error top_matches n = Some (r, s) ->
       nth_error columns_info i = Some info ->
       contains excluded_columns (ci_name info) = false ->
       nth_error r i = Some v ->
       index (headers self) (ci_name info) = Ok h ->
       (h < columnCount (result_table self))%nat ->
       item_text (result_table self') n h = Some (str v)).
Proof.
  intros Hhdrs Hal Hq.
  destruct (perform_fuzzy_search_Ok columns_info fuzz_ratio query all_rows Hal)
    as [scored [Hs [Hfst [_ Hres]]]].
  set (top := firstn 10 (sorted_reverse snd scored)) in *.
  assert (Htop : Forall (fun entry => aligned columns_info (fst entry)) top).
  { apply Forall_forall. intros entry Hin.
    rewrite Forall_forall in Hal. apply Hal. rewrite <- Hfst. apply in_map.
    apply (Permutation_in _ (sorted_reverse_perm snd scored)).
    eapply in_firstn. exact Hin. }
  destruct (render_matches_draws columns_info top Htop 0
              (setRowCount (result_table self) (length top)))
    as [table' [Hok [Hr [Hc [_ Hshow]]]]].
  exists top, {| headers := headers self; result_table := table' |}.
  split; [exact Hres |]. split.
  { unfold top. rewrite length_firstn, sorted_reverse_length.
    rewrite <- Hfst. now rewrite length_map. }
  split.
  { unfold perform_search. rewrite Hq, Hres. cbn [bind].
    fold top. unfold enumerate. rewrite Hhdrs, Hok. cbn [bind].
    reflexivity. }
  repeat split; try assumption.
  intros Hnames n r s i v info h Hn Hi Hex Hv Hh Hlt. cbn [result_table].
  rewrite Hhdrs in Hh.
  apply (Hshow Hnames) with (j := n) (r := r) (s := s) (i := i) (info := info);
    try assumption.
  simpl. lia.
Qed.

End HandlerFacts.

(** X7: on a window set up by [__init__], a search with a query that is
    not empty over records with one value per column ends without error
    and leaves a table of min(10, number of records) rows, with the
    headers and the column count as they were. *)
Theorem search_fills_one_row_per_match
    (columns_info : list column_info) (fuzz_ratio : string -> string -> Z)
    (self : SearchApp) (query : string) (all_rows : list Row) :
  headers self = headers (SearchApp_init columns_info) ->
  Forall (aligned columns_info) all_rows ->
  is_empty query = false ->
  exists self',
    perform_search columns_info fuzz_ratio self query all_rows = Ok self' /\
    headers self' = headers self /\
    rowCount (result_table self') = Nat.min 10 (length all_rows) /\
    columnCount (result_table self') = columnCount (result_table self).
Proof.
  intros Hhdrs Hal Hq.
  destruct (perform_search_draws columns_info fuzz_ratio self query all_rows
              Hhdrs Hal Hq)
    as [top [self' [_ [Hlen [Hok [Hh [Hr [Hc _]]]]]]]].
  exists self'. repeat split; try assumption. congruence.
Qed.

Lemma search_fills_one_row_per_match_witness :
  exists self',
    perform_search full_columns fuzz.ratio (SearchApp_init full_columns) "sun"
      full_rows = Ok self' /\
    headers self' = headers (SearchApp_init full_columns) /\
    rowCount (result_table self') = Nat.min 10 (length full_rows) /\
    columnCount (result_table self')
    = columnCount (result_table (SearchApp_init full_columns)).
Proof.
  apply (search_fills_one_row_per_match full_columns fuzz.ratio
           (SearchApp_init full_columns) "sun" full_rows).
  - reflexivity.
  - repeat constructor.
  - reflexivity.
Defined.

(** X8: after such a search, the column names being distinct, the cell of
    row n under the header of a column that is not excluded shows the
    [str] text of that field of the n-th match, for every header within
    the table's column count; a null field shows as the text None. *)
Theorem table_shows_fields_of_matches
    (columns_info : list column_info) (fuzz_ratio : string -> string -> Z)
    (self : SearchApp) (query : string) (all_rows : list Row) :
  headers self = headers (SearchApp_init columns_info) ->
  NoDup (map ci_name columns_info) ->
  Forall (aligned columns_info) all_rows ->
  is_empty query = false ->
  exists top_matches self',
    perform_fuzzy_search columns_info fuzz_ratio query all_rows = Ok top_matches /\
    perform_search columns_info fuzz_ratio self query all_rows = Ok self' /\
    forall n r s i v info h,
      nth_error top_matches n = Some (r, s) ->
      nth_error columns_info i = Some info ->
      contains excluded_columns (ci_name info) = false ->
      nth_error r i = Some v ->
      index (headers self) (ci_name info) = Ok h ->
      (h < columnCount (result_table self))%nat ->
      item_text (result_table self') n h = Some (str v).
Proof.
  intros Hhdrs Hnames Hal Hq.
  destruct (perform_search_draws columns_info fuzz_ratio self query all_rows
              Hhdrs Hal Hq)
    as [top [self' [Htop [_ [Hok [_ [_ [_ Hshow]]]]]]]].
  exists top, self'. repeat split; try assumption. now apply Hshow.
Qed.

Lemma full_columns_distinct : NoDup (map ci_name full_columns).
Proof.
  simpl. repeat constructor; simpl; intros H;
    repeat (destruct H as [H | H]; [discriminate H |]); exact H.
Qed.

Lemma table_shows_fields_of_matches_witness :
  exists top_matches self',
    perform_fuzzy_search full_columns fuzz.ratio "sun" full_rows = Ok top_matches /\
    perform_search full_columns fuzz.ratio (SearchApp_init full_columns) "sun"
      full_rows = Ok self' /\
    forall n r s i v info h,
      nth_error top_matches n = Some (r, s) ->
      nth_error full_columns i = Some info ->
      contains excluded_columns (ci_name info) = false ->
      nth_error r i = Some v ->
      index (headers (SearchApp_init full_columns)) (ci_name info) = Ok h ->
      (h < columnCount (result_table (SearchApp_init full_columns)))%nat ->
      item_text (result_table self') n h = Some (str v).
Proof.
  apply (table_shows_fields_of_matches full_columns fuzz.ratio
           (SearchApp_init full_columns) "sun" full_rows).
  - reflexivity.
  - exact full_columns_distinct.
  - repeat constructor.
  - reflexivity.
Defined.

Lemma filter_split_length {A : Type} (f : A -> bool) (l : list A) :
  (length (filter (fun x => negb (f x)) l) + length (filter f l) = length l)%nat.
Proof.
  induction l as [|x l IH]; [reflexivity |].
  simpl. destruct (f x); simpl; lia.
Qed.

(** X9: the headers set up by [__init__] and the columns of the schema
    that bear an excluded name make up the schema. The column count being
    [len(columns_info) - 6], the table has one column for each header
    when six columns bear an excluded name; when fewer do, in a schema of
    six columns or more, the table has fewer columns than headers, so
    that the last headers have no column to be drawn in. *)
Theorem table_columns_against_headers (columns_info : list column_info) :
  (length (headers (SearchApp_init columns_info)) + excluded_present columns_info
   = length columns_info)%nat /\
  (excluded_present columns_info = 6%nat ->
   Z.of_nat (columnCount (result_table (SearchApp_init columns_info)))
   = Z.of_nat (length columns_info) - 6 /\
   columnCount (result_table (SearchApp_init columns_info))
   = length (headers (SearchApp_init columns_info))) /\
  ((excluded_present columns_info < 6)%nat ->
   (6 <= length columns_info)%nat ->
   Z.of_nat (columnCount (result_table (SearchApp_init columns_info)))
   = Z.of_nat (length columns_info) - 6 /\
   (columnCount (result_table (SearchApp_init columns_info))
    < length (headers (SearchApp_init columns_info)))%nat).
Proof.
  assert (Hsum : (length (headers (SearchApp_init columns_info))
                  + excluded_present columns_info = length columns_info)%nat).
  { cbn [headers SearchApp_init]. rewrite length_map. unfold excluded_present.
    apply (filter_split_length
             (fun info => contains excluded_columns (ci_name info))). }
  split; [exact Hsum |].
  assert (Hcount : columnCount (result_table (SearchApp_init columns_info))
                   = (length columns_info - 6)%nat) by reflexivity.
  rewrite Hcount. split.
  - intros H6. split; lia.
  - intros Hlt H6. split; lia.
Qed.

(** ** Further properties: the database path *)

Lemma prefix_split (old s : string) :
  String.prefix old s = true -> exists b, s = (old ++ b)%string.
Proof.
  revert s. induction old as [|c old IH]; intros s H.
  - now exists s.
  - destruct s as [|c' s]; simpl in H; [discriminate |].
    destruct (ascii_dec c c') as [-> | _]; [| discriminate].
    destruct (IH s H) as [b ->]. now exists b.
Qed.

Lemma prefix_of_append (old rest : string) :
  String.prefix old (old ++ rest)%string = true.
Proof.
  induction old as [|c old IH]; simpl; [now destruct rest |].
  destruct (ascii_dec c c); [exact IH | congruence].
Qed.

Lemma occurs_tail (old : string) (c : ascii) (s : string) :
  occurs old s -> occurs old (String c s).
Proof.
  intros [a [b ->]]. now exists (String c a), b.
Qed.

Section ReplaceFacts.

Variables old new : string.

(** Without an occurrence of [old], the string is left as it is. *)
Lemma replace_absent (s : string) :
  ~ occurs old s -> replace old new s = s.
Proof.
  unfold replace. induction s as [|c s IH]; intros Hno; [reflexivity |].
  cbn [replace_from].
  destruct (String.prefix old (String c s)) eqn:Hp.
  - exfalso. apply Hno. destruct (prefix_split _ _ Hp) as [b Hb].
    now exists EmptyString, b.
  - f_equal. apply IH. intros Hocc. apply Hno. now apply occurs_tail.
Qed.

(** The characters of a replaced occurrence are passed over. *)
Lemma replace_from_skips (t rest : string) :
  replace_from old new (String.length t) (t ++ rest)%string
  = replace_from old new 0 rest.
Proof.
  induction t as [|c t IH]; simpl; [| exact IH].
  destruct rest; reflexivity.
Qed.

End ReplaceFacts.

Lemma replace_at_occurrence (c : ascii) (old' new rest : string) :
  replace (String c old') new (String c old' ++ rest)%string
  = (new ++ replace (String c old') new rest)%string.
Proof.
  unfold replace.
  pose proof (prefix_of_append (String c old') rest) as Hp.
  change (String c old' ++ rest)%string with (String c (old' ++ rest)%string) in *.
  cbn [replace_from]. rewrite Hp. f_equal.
  cbn [String.length]. rewrite Nat.sub_succ, Nat.sub_0_r.
  apply replace_from_skips.
Qed.

Lemma replace_passes_free (c : ascii) (old' new a s : string) :
  free_of c a = true ->
  replace (String c old') new (a ++ s)%string
  = (a ++ replace (String c old') new s)%string.
Proof.
  unfold replace. induction a as [|c' a IH]; intros Hfree; [reflexivity |].
  simpl in Hfree. apply andb_true_iff in Hfree. destruct Hfree as [Hc Hfree].
  apply negb_true_iff, Ascii.eqb_neq in Hc.
  change (String c' a ++ s)%string with (String c' (a ++ s)%string).
  cbn [replace_from String.prefix].
  destruct (ascii_dec c c') as [-> | _]; [congruence |].
  simpl. f_equal. now apply IH.
Qed.

Lemma free_of_no_occurrence (c : ascii) (old' s : string) :
  free_of c s = true -> ~ occurs (String c old') s.
Proof.
  intros Hfree [a [b ->]]. induction a as [|c' a IH]; simpl in Hfree.
  - rewrite Ascii.eqb_refl in Hfree. discriminate.
  - apply andb_true_iff in Hfree. now apply IH.
Qed.

(** X10: a configured path in which the placeholder does not stand is
    the database path as it is, whatever the home directory. *)
Theorem database_path_without_placeholder (configured user_home_dir : string) :
  ~ occurs "{USER_HOME}" configured ->
  database_path configured user_home_dir = configured.
Proof.
  intros Hno. unfold database_path. now apply replace_absent.
Qed.

Lemma database_path_without_placeholder_witness :
  database_path "/data/live_sets.db" "/home/ana" = "/data/live_sets.db".
Proof.
  apply (database_path_without_placeholder "/data/live_sets.db" "/home/ana").
  apply free_of_no_occurrence. reflexivity.
Defined.

(** X11: in a configured path, a placeholder that follows a stretch
    without opening brace is replaced by the home directory, the stretch
    is kept, and what follows the placeholder is expanded in the same
    way; so the placeholder at the start of the path makes a path under
    the home directory. *)
Theorem database_path_expands_placeholder (before rest user_home_dir : string) :
  free_of "{"%char before = true ->
  database_path (before ++ "{USER_HOME}" ++ rest)%string user_home_dir
  = (before ++ user_home_dir ++ database_path rest user_home_dir)%string.
Proof.
  intros Hfree. unfold database_path.
  rewrite (replace_passes_free "{"%char "USER_HOME}" user_home_dir before
             ("{USER_HOME}" ++ rest)%string Hfree).
  f_equal. apply (replace_at_occurrence "{"%char "USER_HOME}" user_home_dir rest).
Qed.

Lemma database_path_expands_placeholder_witness :
  database_path ("" ++ "{USER_HOME}" ++ "/Music/live_sets.db")%string "/home/ana"
  = ("" ++ "/home/ana" ++ database_path "/Music/live_sets.db" "/home/ana")%string.
Proof.
  apply (database_path_expands_placeholder "" "/Music/live_sets.db" "/home/ana").
  reflexivity.
Defined.

(** ** Further properties: a fetch already in order, and records too long *)

Lemma sorted_reverse_of_descending {A : Type} (key : A -> Z) (l : list A) :
  StronglySorted (fun x y => key y <= key x) l -> sorted_reverse key l = l.
Proof.
  induction 1 as [|x l Hl IH Hx]; [reflexivity |].
  simpl. rewrite IH. destruct l as [|y l]; [reflexivity |].
  simpl. inversion Hx as [|? ? Hy _]; subst.
  destruct (Z.ltb_spec (key x) (key y)); [lia | reflexivity].
Qed.

(** X12: when the fetched records come with their scores already in
    descending order, in particular when they all score the same, the
    search returns the first ten of them in the order of the fetch. *)
Theorem search_keeps_a_ranked_fetch
    (columns_info : list column_info) (fuzz_ratio : string -> string -> Z)
    (query : string) (all_rows : list Row) (scored : list (Row * Z)) :
  match_scores columns_info fuzz_ratio query excluded_columns all_rows = Ok scored ->
  descending scored ->
  perform_fuzzy_search columns_info fuzz_ratio query all_rows
  = Ok (firstn 10 scored).
Proof.
  intros Hs Hd. unfold perform_fuzzy_search. rewrite Hs. cbn [bind].
  now rewrite (sorted_reverse_of_descending snd scored Hd).
Qed.

Lemma search_keeps_a_ranked_fetch_witness :
  perform_fuzzy_search demo_columns fuzz.ratio "ableton" [sunrise; midnight_drive]
  = Ok (firstn 10 [(sunrise, 40); (midnight_drive, 9)]).
Proof.
  apply (search_keeps_a_ranked_fetch demo_columns fuzz.ratio "ableton"
           [sunrise; midnight_drive] [(sunrise, 40); (midnight_drive, 9)]).
  - vm_compute. reflexivity.
  - repeat constructor. simpl. lia.
Defined.

Section LongRecordFacts.

Variable columns_info : list column_info.

Local Abbreviation hdrs := (headers (SearchApp_init columns_info)).

(** Drawing the cells of a match ends with a table or with [IndexError],
    and with the error when a cell lies past the columns. *)
Lemma render_cells_raises (row : nat) (cells : list (nat * value)) :
  forall table,
    ((exists table', render_cells columns_info hdrs row cells table = Ok table') \/
     render_cells columns_info hdrs row cells table = Raise IndexError) /\
    (Exists (fun cell => (length columns_info <= fst cell)%nat) cells ->
     render_cells columns_info hdrs row cells table = Raise IndexError).
Proof.
  induction cells as [|[i v] cells IH]; intros table.
  - split; [left; now eexists | inversion 1].
  - cbn [render_cells]. unfold getitem.
    destruct (nth_error columns_info i) as [info|] eqn:Hi; cbn [bind].
    + assert (Hlt : (i < length columns_info)%nat)
        by (apply nth_error_Some; congruence).
      assert (Htail : Exists (fun cell => (length columns_info <= fst cell)%nat)
                        ((i, v) :: cells) ->
                      Exists (fun cell => (length columns_info <= fst cell)%nat) cells).
      { intros HE. inversion HE; subst; [simpl in *; lia | assumption]. }
      destruct (contains excluded_columns (ci_name info)) eqn:Hex; cbn [negb].
      * destruct (IH table) as [Hres Hraise]. split; [exact Hres | auto].
      * destruct (index_found hdrs (ci_name info)
                    (header_of_visible columns_info i info Hi Hex)) as [h Hh].
        rewrite Hh. cbn [bind].
        destruct (IH (setItem table row h (str v))) as [Hres Hraise].
        split; [exact Hres | auto].
    + split; [now right | reflexivity].
Qed.

Lemma render_matches_raises (todo : list (nat * (Row * Z))) :
  forall table,
    ((exists table', render_matches columns_info hdrs todo table = Ok table') \/
     render_matches columns_info hdrs todo table = Raise IndexError) /\
    (Exists (fun e => (length columns_info < length (fst (snd e)))%nat) todo ->
     render_matches columns_info hdrs todo table = Raise IndexError).
Proof.
  induction todo as [|[n [r s]] todo IH]; intros table.
  - split; [left; now eexists | inversion 1].
  - cbn [render_matches].
    destruct (render_cells_raises n (enumerate r) table) as [[[t1 Hok] | Hr] Hlong].
    + rewrite Hok. cbn [bind]. destruct (IH t1) as [Hres Hraise].
      split; [exact Hres |]. intros HE. inversion HE; subst; [| auto].
      simpl in *. rewrite Hlong in Hok; [discriminate |].
      destruct (nth_error r (length columns_info)) as [v|] eqn:Hv.
      * apply Exists_exists. exists (length columns_info, v). split; [| simpl; lia].
        unfold enumerate. eapply nth_error_In.
        rewrite enumerate_from_nth_error, Hv. reflexivity.
      * apply nth_error_None in Hv. lia.
    + rewrite Hr. cbn [bind]. split; [now right | reflexivity].
Qed.

End LongRecordFacts.

(** X13: when a record with more values than the schema has columns is
    among the matches of a search, the handler raises [IndexError] while
    it draws that record. *)
Theorem long_record_breaks_display
    (columns_info : list column_info) (fuzz_ratio : string -> string -> Z)
    (self : SearchApp) (query : string) (all_rows : list Row)
    (top_matches : list (Row * Z)) :
  headers self = headers (SearchApp_init columns_info) ->
  is_empty query = false ->
  perform_fuzzy_search columns_info fuzz_ratio query all_rows = Ok top_matches ->
  Exists (fun entry => (length columns_info < length (fst entry))%nat) top_matches ->
  perform_search columns_info fuzz_ratio self query all_rows = Raise IndexError.
Proof.
  intros Hhdrs Hq Htop Hlong. unfold perform_search.
  rewrite Hq, Htop, Hhdrs. cbn [bind].
  destruct (render_matches_raises columns_info (enumerate top_matches)
              (setRowCount (result_table self) (length top_matches)))
    as [_ Hraise].
  rewrite Hraise; [reflexivity |].
  apply Exists_exists in Hlong. destruct Hlong as [entry [Hin Hlen]].
  apply Exists_exists.
  destruct (In_nth_error _ _ Hin) as [n Hn].
  exists (n, entry). split; [| exact Hlen].
  unfold enumerate. eapply nth_error_In.
  rewrite enumerate_from_nth_error, Hn. reflexivity.
Qed.

Lemma long_record_breaks_display_witness :
  perform_search demo_columns fuzz.ratio (SearchApp_init demo_columns) "dusk"
    [sunrise; long_row] = Raise IndexError.
Proof.
  apply (long_record_breaks_display demo_columns fuzz.ratio
           (SearchApp_init demo_columns) "dusk" [sunrise; long_row]
           [(long_row, 100); (sunrise, 36)]).
  - reflexivity.
  - reflexivity.
  - vm_compute. reflexivity.
  - apply Exists_cons_hd. simpl. lia.
Defined.

(** X14: the values of a record past the columns of the schema do not
    count for its score: a record that covers the schema scores the same
    with any values appended. *)
Theorem score_ignores_values_past_schema
    (columns_info : list column_info) (fuzz_ratio : string -> string -> Z)
    (row extra : Row) (query : string) (exclude_columns : list string) :
  (length columns_info <= length row)%nat ->
  get_best_match_score columns_info fuzz_ratio (row ++ extra) query exclude_columns
  = get_best_match_score columns_info fuzz_ratio row query exclude_columns.
Proof.
  intros Hlen. unfold get_best_match_score.
  apply loop_reads_visible. intros index info Hin _.
  apply in_enumerate in Hin. apply nth_error_app1.
  assert (index < length columns_info)%nat by (apply nth_error_Some; congruence).
  lia.
Qed.

Lemma score_ignores_values_past_schema_witness :
  get_best_match_score demo_columns fuzz.ratio (sunrise ++ [VStr "sunrise"])
    "sunrise" excluded_columns
  = get_best_match_score demo_columns fuzz.ratio sunrise "sunrise" excluded_columns.
Proof.
  apply (score_ignores_values_past_schema demo_columns fuzz.ratio sunrise
           [VStr "sunrise"] "sunrise" excluded_columns).
  simpl. lia.
Defined.
